(** * A shallow embedding of the recursive ray tracer of [main.cpp]

    The tracer computes on [float] (and a few [double]) values.  The embedding
    keeps the program text and abstracts the arithmetic: every function of
    [main.cpp] is written once, over a class [Scalar] that lists the
    operations the source applies to numbers.  Properties of the control
    flow are proved for every interpretation of those operations.  Properties
    that rest on algebra are proved for [XR], exact real arithmetic in which
    an operation applied outside its domain yields no number, as IEEE
    arithmetic yields a NaN; rounding and overflow are not represented there.
    What the program does where rounding, overflow or a NaN decide is
    evaluated in [B32_Scalar], the binary32 arithmetic that the Standard Library
    specifies in [SpecFloat]. *)

From Stdlib Require Import ZArith QArith List Bool Lia.
From Stdlib Require Import Reals Lra Psatz.
From Stdlib Require String Ascii DecimalString.
From Stdlib Require Floats.SpecFloat.
Import ListNotations.

(** ** The numbers of the program *)

(** What [main.cpp] does with numbers: literals, the four operations, unary
    minus, [fabs], [sqrtf], [powf], the comparisons [<] and [<=] (the source's
    [a > b] is [b < a], its [a >= b] is [b <= a]), and the conversion to an
    integer type written [int(e)] or [(char)(e)]. *)
Class Scalar (F : Type) : Type := {
  flit : Q -> F;
  fadd : F -> F -> F;
  fsub : F -> F -> F;
  fmul : F -> F -> F;
  fdiv : F -> F -> F;
  fneg : F -> F;
  fabs : F -> F;
  sqrtf : F -> F;
  powf : F -> F -> F;
  fltb : F -> F -> bool;
  fleb : F -> F -> bool;
  to_int : F -> Z
}.

Declare Scope scalar_scope.
Delimit Scope scalar_scope with sc.
Bind Scope scalar_scope with Scalar.

Infix "+" := fadd : scalar_scope.
Infix "-" := fsub : scalar_scope.
Infix "*" := fmul : scalar_scope.
Infix "/" := fdiv : scalar_scope.
Notation "- a" := (fneg a) : scalar_scope.
Infix "<?" := fltb : scalar_scope.
Infix "<=?" := fleb : scalar_scope.
Notation "0" := (flit (0 # 1)) : scalar_scope.
Notation "1" := (flit (1 # 1)) : scalar_scope.
Notation "2" := (flit (2 # 1)) : scalar_scope.
Notation "5" := (flit (5 # 1)) : scalar_scope.
Notation "10" := (flit (10 # 1)) : scalar_scope.
Notation "30" := (flit (30 # 1)) : scalar_scope.
Notation "255" := (flit (255 # 1)) : scalar_scope.
Notation "1000" := (flit (1000 # 1)) : scalar_scope.

(** Monadic bind of [option], for the functions that recurse on fuel. *)
Notation "' p <- e ;; k" :=
  (match e with Some p => k | None => None end)
  (at level 61, p pattern, e at next level, right associativity).

Section Tracer.

Context {F : Type} {SF : Scalar F}.
Local Open Scope scalar_scope.

(** [std::numeric_limits<float>::max()], the largest finite binary32 number,
    (2 - 2^-23) * 2^127. *)
Definition FLT_MAX : F := flit (340282346638528859811704183484516925440 # 1).

(** [std::min(a, b)] is [(b < a) ? b : a] and [std::max(a, b)] is
    [(a < b) ? b : a]. *)
Definition fmin (a b : F) : F := if b <? a then b else a.
Definition fmax (a b : F) : F := if a <? b then b else a.

(** ** Vectors *)

(** Modelled from the spec: the types [Vec3f] and [Vec4f] of [geometry.h],
    three and four numbers; [e0] to [e3] stand for the source's [a[0]] to
    [a[3]]. *)
Record Vec3f : Type := mkVec3f { x : F; y : F; z : F }.
Record Vec4f : Type := mkVec4f { e0 : F; e1 : F; e2 : F; e3 : F }.

(** Modelled from the spec: [geometry.h], which declares [Vec3f] and [Vec4f]
    and their operators, is not among the sources.  The spec treats it as a
    leaf library with the standard operations (add, subtract, scale, dot
    product, negation, magnitude, normalize); the definitions from here to
    [normalize] follow it.  A value-initialised vector is the zero vector. *)
Definition Vec3f_default : Vec3f := mkVec3f 0 0 0.

(** Modelled from the spec: [operator+] of [geometry.h], componentwise. *)
Definition vadd (a b : Vec3f) : Vec3f := mkVec3f (x a + x b) (y a + y b) (z a + z b).

(** Modelled from the spec: [operator-] of [geometry.h], componentwise. *)
Definition vsub (a b : Vec3f) : Vec3f := mkVec3f (x a - x b) (y a - y b) (z a - z b).

(** Modelled from the spec: [operator*] of [geometry.h], vector by scalar. *)
Definition vscale (a : Vec3f) (k : F) : Vec3f := mkVec3f (x a * k) (y a * k) (z a * k).

(** Modelled from the spec: unary [operator-] of [geometry.h]. *)
Definition vneg (a : Vec3f) : Vec3f := mkVec3f (- x a) (- y a) (- z a).

(** Modelled from the spec: [operator*] of [geometry.h], the dot product. *)
Definition dot (a b : Vec3f) : F := x a * x b + y a * y b + z a * z b.

(** Modelled from the spec: [norm] of [geometry.h], the magnitude. *)
Definition norm (a : Vec3f) : F := sqrtf (x a * x a + y a * y a + z a * z a).

(** Modelled from the spec: [normalize] of [geometry.h], which scales the
    vector by the inverse of its magnitude. *)
Definition normalize (a : Vec3f) : Vec3f := vscale a (1 / norm a).

(** ** The scene: [Light], [Material], [Sphere] *)

Record Light : Type := mkLight { position : Vec3f; intensity : F }.

Record Material : Type := mkMaterial {
  refractive_index : F;
  albedo : Vec4f;
  diffuse_color : Vec3f;
  specular_exponent : F
}.

(** The default constructor [Material()]. *)
Definition Material_default : Material :=
  mkMaterial 1 (mkVec4f 1 0 0 0) Vec3f_default 0.

(** The assignment [material.diffuse_color = c]: the other fields stay. *)
Definition set_diffuse_color (m : Material) (c : Vec3f) : Material :=
  mkMaterial (refractive_index m) (albedo m) c (specular_exponent m).

Record Sphere : Type := mkSphere { center : Vec3f; radius : F; material : Material }.

(** [Sphere::rayIntersect].  The result is [Some t0] when the source returns
    [true] with the distance in [t0], and [None] when it returns [false]
    (the caller reads [t0] only after [true]). *)
Definition rayIntersect (s : Sphere) (orig dir : Vec3f) : option F :=
  let oc := vsub (center s) orig in
  let tca := dot oc dir in
  let d2 := dot oc oc - tca * tca in
  if radius s * radius s <? d2 then None
  else
    let thc := sqrtf (radius s * radius s - d2) in
    let t0 := tca - thc in
    let t1 := tca + thc in
    let t0 := if t0 <? 0 then t1 else t0 in
    if 0 <=? t0 then Some t0 else None.

(** [reflect]: [I - N * 2.f * (I * N)]. *)
Definition reflect (I N : Vec3f) : Vec3f :=
  vsub I (vscale (vscale N 2) (dot I N)).

(** [cosi] of [refract]: [-std::max(-1.f, std::min(1.f, I * N))]. *)
Definition refract_cosi (I N : Vec3f) : F :=
  - fmax (fneg 1) (fmin 1 (dot I N)).

(** The discriminant [k], and the value returned when [cosi < 0] fails. *)
Definition refract_k (I N : Vec3f) (eta_t eta_i : F) : F :=
  let cosi := refract_cosi I N in
  let eta := eta_i / eta_t in
  1 - eta * eta * (1 - cosi * cosi).

Definition refract_value (I N : Vec3f) (eta_t eta_i : F) : Vec3f :=
  let cosi := refract_cosi I N in
  let eta := eta_i / eta_t in
  let k := refract_k I N eta_t eta_i in
  if k <? 0 then mkVec3f 1 0 0
  else vadd (vscale I eta) (vscale N (eta * cosi - sqrtf k)).

(** [refract].  The source calls itself when [cosi < 0]; nothing in the text
    bounds these calls, so the embedding recurses on fuel: one unit for each
    activation, [None] when it runs out. *)
Fixpoint refract_fuel (fuel : nat) (I N : Vec3f) (eta_t eta_i : F) : option Vec3f :=
  match fuel with
  | O => None
  | S fuel' =>
      if refract_cosi I N <? 0
      then refract_fuel fuel' I (vneg N) eta_i eta_t
      else Some (refract_value I N eta_t eta_i)
  end.

(** The normal and the indices of the activation of [refract] that returns,
    when at most one self-call was made: those of the self-call if [cosi < 0],
    the given ones otherwise; and the discriminant [k] it computes. *)
Definition refract_last_args (I N : Vec3f) (eta_t eta_i : F) : Vec3f * (F * F) :=
  if refract_cosi I N <? 0 then (vneg N, (eta_i, eta_t)) else (N, (eta_t, eta_i)).

Definition refract_last_k (I N : Vec3f) (eta_t eta_i : F) : F :=
  let '(N', (eta_t', eta_i')) := refract_last_args I N eta_t eta_i in
  refract_k I N' eta_t' eta_i'.

(** ** [sceneIntersect] *)

(** The three output parameters [hit], [N], [material]: the function receives
    their current values and returns the values they hold at the end. *)
Definition HitState : Type := (Vec3f * Vec3f * Material)%type.

(** One iteration of the loop over the spheres (lines 70-77). *)
Definition spheres_step (orig dir : Vec3f) (acc : F * HitState) (s : Sphere)
  : F * HitState :=
  let '(spheres_dist, st) := acc in
  match rayIntersect s orig dir with
  | Some dist_i =>
      if dist_i <? spheres_dist then
        let hit := vadd orig (vscale dir dist_i) in
        (dist_i, (hit, normalize (vsub hit (center s)), material s))
      else acc
  | None => acc
  end.

(** The loop: [spheres_dist] starts at [FLT_MAX]. *)
Definition spheres_loop (orig dir : Vec3f) (spheres : list Sphere) (st : HitState)
  : F * HitState :=
  fold_left (spheres_step orig dir) spheres (FLT_MAX, st).

(** The output parameters written when sphere [s] wins at distance [d]
    (lines 74-76). *)
Definition sphere_hit (orig dir : Vec3f) (s : Sphere) (d : F) : HitState :=
  let hit := vadd orig (vscale dir d) in
  (hit, normalize (vsub hit (center s)), material s).

(** What the loop can have done: left [spheres_dist] and the output
    parameters as they were, or written them for a sphere that [rayIntersect]
    reports at distance [spheres_dist]. *)
Definition loop_outcome (orig dir : Vec3f) (spheres : list Sphere)
  (acc0 acc : F * HitState) : Prop :=
  acc = acc0 \/
  exists s, In s spheres /\ rayIntersect s orig dir = Some (fst acc)
            /\ snd acc = sphere_hit orig dir s (fst acc).

(** The checkerboard: [distance] and [pt] of lines 83-84. *)
Definition plane_distance (orig dir : Vec3f) : F := (- (y orig + 5)) / y dir.
Definition plane_point (orig dir : Vec3f) : Vec3f :=
  vadd orig (vscale dir (plane_distance orig dir)).

(** The two conditions that guard the plane branch (lines 81 and 85). *)
Definition plane_considered (dir : Vec3f) : bool :=
  flit (1 # 1000) <? fabs (y dir).

Definition plane_accepts (orig dir : Vec3f) (spheres_dist : F) : bool :=
  let distance := plane_distance orig dir in
  let pt := plane_point orig dir in
  (0 <? distance) && (fabs (x pt) <? 10) && (z pt <? fneg 10) && (fneg 30 <? z pt)
  && (distance <? spheres_dist).

(** The plane branch is taken: both guards hold. *)
Definition plane_wins (orig dir : Vec3f) (spheres_dist : F) : bool :=
  plane_considered dir && plane_accepts orig dir spheres_dist.

(** 32-bit [int] addition, and the colour of line 90:
    [(int(.5 * hit.x + 1000) + int(.5 * hit.z)) & 1 ? (.3,.3,.3) : (.1,.1,.1)]. *)
Definition int_add (a b : Z) : Z :=
  ((a + b + 2 ^ 31) mod 2 ^ 32 - 2 ^ 31)%Z.

Definition checker_index (hit : Vec3f) : Z :=
  int_add (to_int (flit (1 # 2) * x hit + 1000)) (to_int (flit (1 # 2) * z hit)).

Definition checker_color (hit : Vec3f) : Vec3f :=
  if (Z.land (checker_index hit) 1 =? 0)%Z
  then mkVec3f (flit (1 # 10)) (flit (1 # 10)) (flit (1 # 10))
  else mkVec3f (flit (3 # 10)) (flit (3 # 10)) (flit (3 # 10)).

(** Lines 80-92: [checkerboard_dist] and the output parameters after the
    plane test, from [spheres_dist] and the output parameters after the loop. *)
Definition plane_test (orig dir : Vec3f) (acc : F * HitState) : F * HitState :=
  let '(spheres_dist, (hit, N, mat)) := acc in
  if plane_considered dir then
    if plane_accepts orig dir spheres_dist then
      let pt := plane_point orig dir in
      (plane_distance orig dir,
       (pt, mkVec3f 0 1 0, set_diffuse_color mat (checker_color pt)))
    else (FLT_MAX, (hit, N, mat))
  else (FLT_MAX, (hit, N, mat)).

(** [sceneIntersect]: the returned [bool] and the final output parameters. *)
Definition sceneIntersect (orig dir : Vec3f) (spheres : list Sphere) (st : HitState)
  : bool * HitState :=
  let after_loop := spheres_loop orig dir spheres st in
  let '(checkerboard_dist, st') := plane_test orig dir after_loop in
  (fmin (fst after_loop) checkerboard_dist <? 1000, st').

(** ** [rayCaster] *)

Definition MAXDEPTH : N := 10%N.
Definition BACKGROUNDCOLOR : Vec3f :=
  mkVec3f (flit (3 # 10)) (flit (2 # 10)) (flit (3 # 10)).

(** [size_t] increment. *)
Definition size_t_succ (n : N) : N := ((n + 1) mod 2 ^ 64)%N.

(** [d * N < 0 ? point - N * 1e-3 : point + N * 1e-3], written three times in
    the source (lines 108, 109, 119). *)
Definition offset_orig (d point N : Vec3f) : Vec3f :=
  if dot d N <? 0 then vsub point (vscale N (flit (1 # 1000)))
  else vadd point (vscale N (flit (1 # 1000))).

(** The locals of [rayCaster] before the call of [sceneIntersect]:
    [Vec3f point, N; Material material;]. *)
Definition rayCaster_locals : HitState :=
  (Vec3f_default, Vec3f_default, Material_default).

(** The shadow test of line 122 for one light. *)
Definition light_dir (point : Vec3f) (l : Light) : Vec3f :=
  normalize (vsub (position l) point).

Definition light_distance (point : Vec3f) (l : Light) : F :=
  norm (vsub (position l) point).

Definition shadow_orig (point N : Vec3f) (l : Light) : Vec3f :=
  offset_orig (light_dir point l) point N.

Definition in_shadow (spheres : list Sphere) (point N : Vec3f) (l : Light) : bool :=
  let '(found, (shadow_pt, _, _)) :=
    sceneIntersect (shadow_orig point N l) (light_dir point l) spheres rayCaster_locals in
  found && (norm (vsub shadow_pt (shadow_orig point N l)) <? light_distance point l).

(** What an unoccluded light adds (lines 125-126). *)
Definition diffuse_term (point N : Vec3f) (l : Light) : F :=
  intensity l * fmax 0 (dot (light_dir point l) N).

Definition specular_term (dir point N : Vec3f) (mat : Material) (l : Light) : F :=
  powf (fmax 0 (dot (vneg (reflect (vneg (light_dir point l)) N)) dir))
       (specular_exponent mat)
  * intensity l.

(** One iteration of the loop over the lights (lines 116-126) on the pair
    [(diffuse_light_intensity, specular_light_intensity)]. *)
Definition light_step (spheres : list Sphere) (dir point N : Vec3f) (mat : Material)
  (acc : F * F) (l : Light) : F * F :=
  if in_shadow spheres point N l then acc
  else (fst acc + diffuse_term point N l, snd acc + specular_term dir point N mat l).

Definition lights_loop (spheres : list Sphere) (lights : list Light)
  (dir point N : Vec3f) (mat : Material) : F * F :=
  fold_left (light_step spheres dir point N mat) lights (0, 0).

(** The sum of line 128. *)
Definition shade (mat : Material) (intensities : F * F) (reflectColor refractColor : Vec3f)
  : Vec3f :=
  vadd (vadd (vadd
    (vscale (vscale (diffuse_color mat) (fst intensities)) (e0 (albedo mat)))
    (vscale (vscale (mkVec3f 1 1 1) (snd intensities)) (e1 (albedo mat))))
    (vscale reflectColor (e2 (albedo mat))))
    (vscale refractColor (e3 (albedo mat))).

(** [rayCaster].  Each activation takes one unit of fuel and hands the rest to
    its two recursive calls and to [refract]. *)
Fixpoint rayCaster_fuel (fuel : nat) (orig dir : Vec3f) (spheres : list Sphere)
  (lights : list Light) (depth : N) : option Vec3f :=
  match fuel with
  | O => None
  | S fuel' =>
      if (MAXDEPTH <? depth)%N then Some BACKGROUNDCOLOR
      else
        let '(found, (point, N, mat)) :=
          sceneIntersect orig dir spheres rayCaster_locals in
        if negb found then Some BACKGROUNDCOLOR
        else
          let reflectDir := normalize (reflect dir N) in
          ' refracted <- refract_fuel fuel' dir N (refractive_index mat) 1 ;;
          let refractDir := normalize refracted in
          let reflectOrig := offset_orig reflectDir point N in
          let refractOrig := offset_orig refractDir point N in
          ' reflectColor <-
            rayCaster_fuel fuel' reflectOrig reflectDir spheres lights (size_t_succ depth) ;;
          ' refractColor <-
            rayCaster_fuel fuel' refractOrig refractDir spheres lights (size_t_succ depth) ;;
          Some (shade mat (lights_loop spheres lights dir point N mat)
                      reflectColor refractColor)
  end.

(** ** The scene of [main] *)

Definition glass : Material :=
  mkMaterial (flit (101 # 100))
             (mkVec4f 0 (flit (5 # 10)) (flit (1 # 10)) (flit (8 # 10)))
             (mkVec3f (flit (6 # 10)) (flit (8 # 10)) (flit (7 # 10)))
             (flit (125 # 1)).
Definition rubber : Material :=
  mkMaterial 1 (mkVec4f (flit (9 # 10)) (flit (1 # 10)) 0 0)
             (mkVec3f (flit (4 # 10)) (flit (1 # 10)) (flit (3 # 10))) 10.
Definition rubber2 : Material :=
  mkMaterial 1 (mkVec4f (flit (9 # 10)) (flit (1 # 10)) (flit (4 # 10)) 0)
             (mkVec3f (flit (3 # 10)) (flit (1 # 10)) (flit (4 # 10))) 10.
Definition mirror : Material :=
  mkMaterial 1 (mkVec4f 0 10 (flit (8 # 10)) 0) (mkVec3f 1 1 1) (flit (1425 # 1)).

Definition main_spheres : list Sphere :=
  [ mkSphere (mkVec3f 1 (fneg (flit (15 # 10))) (fneg (flit (12 # 1)))) (flit (3 # 1)) glass;
    mkSphere (mkVec3f (fneg (flit (35 # 10))) (flit (15 # 10)) (fneg (flit (18 # 1))))
             2 rubber;
    mkSphere (mkVec3f (flit (35 # 10)) (fneg (flit (15 # 10))) (fneg (flit (24 # 1))))
             2 rubber2;
    mkSphere (mkVec3f (flit (7 # 1)) 5 (fneg (flit (18 # 1)))) (flit (4 # 1)) mirror ].

Definition main_lights : list Light :=
  [ mkLight (mkVec3f (fneg 10) 10 (flit (20 # 1))) (flit (14 # 10));
    mkLight (mkVec3f (fneg 30) (fneg 30) (flit (20 # 1))) (flit (12 # 10));
    mkLight (mkVec3f (fneg (flit (20 # 1))) (flit (20 # 1)) (flit (20 # 1)))
            (flit (15 # 10));
    mkLight (mkVec3f 30 (flit (50 # 1)) (fneg (flit (25 # 1)))) (flit (8 # 10));
    mkLight (mkVec3f 30 (flit (20 # 1)) 30) (flit (3 # 1)) ].

(** ** The output stage of [render] (lines 154-164) *)

(** The scaling step: [max = std::max(c[0], std::max(c[1], c[2]))], then
    [if (max > 1) c = c * (1. / max)]. *)
Definition channel_max (c : Vec3f) : F := fmax (x c) (fmax (y c) (z c)).

Definition tone_map (c : Vec3f) : Vec3f :=
  let max := channel_max c in
  if 1 <? max then vscale c (1 / max) else c.

(** [(char)(255 * std::max(0.f, std::min(1.f, v)))], as the byte written. *)
Definition clamp01 (v : F) : F := fmax 0 (fmin 1 v).
Definition quantize (v : F) : Z := Z.modulo (to_int (255 * clamp01 v)) 256.

Definition pixel_bytes (c : Vec3f) : list Z :=
  let c' := tone_map c in
  [quantize (x c'); quantize (y c'); quantize (z c')].

Definition framebuffer_bytes (framebuffer : list Vec3f) : list Z :=
  flat_map pixel_bytes framebuffer.

End Tracer.

Arguments Vec3f F : clear implicits.
Arguments Vec4f F : clear implicits.
Arguments Light F : clear implicits.
Arguments Material F : clear implicits.
Arguments Sphere F : clear implicits.
Arguments HitState F : clear implicits.

(** ** Exact arithmetic with undefined results: the instance [XR]

    A number of [XR] is a real number or [None], which stands for the result
    of an operation outside its domain (IEEE's NaN, and the infinities with
    it).  Every operation on [None] gives [None] and every comparison with
    [None] is false, as for a NaN; division by zero and the square root of a
    negative number give [None].  Nothing is rounded and nothing overflows:
    what is proved in [XR] describes the program where its numbers stay
    within the range of binary32 and no comparison is decided by rounding.
    Where the program divides by zero binary32 has an infinity and [XR] has
    no number; such inputs are evaluated in [B32_Scalar]. *)

Definition XR : Type := option R.

Definition xlift1 (f : R -> R) (a : XR) : XR :=
  match a with Some u => Some (f u) | None => None end.

Definition xlift2 (f : R -> R -> R) (a b : XR) : XR :=
  match a, b with Some u, Some v => Some (f u v) | _, _ => None end.

Definition xdiv (a b : XR) : XR :=
  match a, b with
  | Some u, Some v => if Req_dec_T v 0 then None else Some (u / v)%R
  | _, _ => None
  end.

Definition xsqrt (a : XR) : XR :=
  match a with
  | Some u => if Rlt_dec u 0 then None else Some (sqrt u)
  | None => None
  end.

Definition xltb (a b : XR) : bool :=
  match a, b with
  | Some u, Some v => if Rlt_dec u v then true else false
  | _, _ => false
  end.

Definition xleb (a b : XR) : bool :=
  match a, b with
  | Some u, Some v => if Rle_dec u v then true else false
  | _, _ => false
  end.

(** [powf] as C specifies it: [powf(x, 0)] is 1 for every [x] and
    [powf(1, y)] is 1 for every [y], NaN included; a zero base gives 0 for a
    positive exponent; a negative base is defined for integral exponents. *)
Definition xpow (a b : XR) : XR :=
  match a, b with
  | _, Some v =>
      if Req_dec_T v 0 then Some 1%R
      else match a with
           | None => None
           | Some u =>
               if Rlt_dec 0 u then Some (Rpower u v)
               else if Req_dec_T u 0 then (if Rlt_dec 0 v then Some 0%R else None)
               else if Req_dec_T (IZR (Zfloor v)) v
                    then Some (if Z.even (Zfloor v) then Rpower (- u) v
                               else - Rpower (- u) v)%R
                    else None
           end
  | Some u, None => if Req_dec_T u 1 then Some 1%R else None
  | None, None => None
  end.

(** Conversion to an integer type truncates toward zero.  C++ leaves the
    conversion of a NaN undefined; the instance takes 0. *)
Definition xto_int (a : XR) : Z :=
  match a with
  | Some u => if Rle_dec 0 u then Zfloor u else Zceil u
  | None => 0%Z
  end.

#[export] Instance XR_Scalar : Scalar XR := {|
  flit := fun q => Some (Q2R q);
  fadd := xlift2 Rplus;
  fsub := xlift2 Rminus;
  fmul := xlift2 Rmult;
  fdiv := xdiv;
  fneg := xlift1 Ropp;
  fabs := xlift1 Rabs;
  sqrtf := xsqrt;
  powf := xpow;
  fltb := xltb;
  fleb := xleb;
  to_int := xto_int
|}.

(** [max(-1.f, min(1.f, q))] on a real number [q]. *)
Definition clampR (q : R) : R :=
  if Rlt_dec q 1 then (if Rlt_dec (-1) q then q else -1) else 1.

(** The vector of [XR] with three real components. *)
Definition V3 (a b c : R) : Vec3f XR := mkVec3f (Some a) (Some b) (Some c).

(** A vector all of whose components are numbers. *)
Definition finite3 (v : Vec3f XR) : Prop :=
  exists a b c, v = V3 a b c.

(** A direction is fit for [rayCaster] when it has unit length, or when it
    is not a vector of numbers at all (then nothing is hit). *)
Definition ray_ok (dir : Vec3f XR) : Prop :=
  dot dir dir = Some 1%R \/ ~ finite3 dir.


(** ** [render]: the primary rays and the file written *)

(** What [render] takes from [<cmath>] besides the operations of [Scalar]:
    the constant [M_PI] and the function [tan]. *)
Class Trig (F : Type) : Type := {
  M_PI : F;
  ftan : F -> F
}.

Section Render.

Context {F : Type} {SF : Scalar F} {TF : Trig F}.
Import String.
Local Open Scope scalar_scope.

Definition width : nat := 1024.
Definition height : nat := 768.

(** The conversion of a loop index or of an [int] to a floating type. *)
Definition of_index (n : nat) : F := flit (Z.of_nat n # 1).

(** [fov = M_PI / 3.] *)
Definition fov : F := M_PI / flit (3 # 1).

(** Lines 143-146: the direction of the primary ray through pixel [(i, j)]. *)
Definition primary_dir (i j : nat) : Vec3f F :=
  let dir_x := (of_index i + flit (1 # 2)) - of_index width / 2 in
  let dir_y := - (of_index j + flit (1 # 2)) + of_index height / 2 in
  let dir_z := (- of_index height) / (2 * ftan (fov / 2)) in
  normalize (mkVec3f dir_x dir_y dir_z).

(** All results, or none when one is missing. *)
Fixpoint option_all {A : Type} (l : list (option A)) : option (list A) :=
  match l with
  | [] => Some []
  | o :: rest =>
      ' a <- o ;;
      ' r <- option_all rest ;;
      Some (a :: r)
  end.

(** The rendering loop (lines 139-148): [framebuffer[i + j * width]] is the
    colour of the primary ray through [(i, j)], cast from the origin at depth
    0.  The list is the frame buffer in index order. *)
Definition render_framebuffer_fuel (fuel : nat) (spheres : list (Sphere F))
  (lights : list (Light F)) : option (list (Vec3f F)) :=
  option_all
    (flat_map
       (fun j => map (fun i => rayCaster_fuel fuel (mkVec3f 0 0 0) (primary_dir i j)
                                 spheres lights 0%N)
                     (seq 0 width))
       (seq 0 height)).

(** What [ofs << n] writes for an [int]: its decimal digits. *)
Definition decimal (n : nat) : String.string :=
  DecimalString.NilEmpty.string_of_uint (Nat.to_uint n).

Definition newline : String.string :=
  String.String (Ascii.ascii_of_nat 10) String.EmptyString.

(** Lines 152-153: ["P6\n" << width << " " << height << "\n255\n"]. *)
Definition ppm_header : String.string :=
  String.append "P6"%string
    (String.append newline
       (String.append (decimal width)
          (String.append " "%string
             (String.append (decimal height)
                (String.append newline (String.append "255"%string newline)))))).

Definition bytes_of_string (t : String.string) : list Z :=
  map (fun c => Z.of_nat (Ascii.nat_of_ascii c)) (String.list_ascii_of_string t).

(** The bytes of [out.ppm] (lines 150-165), once the file is open: the header,
    then three bytes for each pixel of the frame buffer. *)
Definition render_fuel (fuel : nat) (spheres : list (Sphere F))
  (lights : list (Light F)) : option (list Z) :=
  ' framebuffer <- render_framebuffer_fuel fuel spheres lights ;;
  Some (bytes_of_string ppm_header ++ framebuffer_bytes framebuffer).

End Render.

(** [M_PI] and [tan] in exact arithmetic; the tangent is undefined where the
    cosine is zero. *)
#[export] Instance XR_Trig : Trig XR := {|
  M_PI := Some PI;
  ftan := fun a =>
    match a with
    | Some u => if Req_dec_T (cos u) 0 then None else Some (tan u)
    | None => None
    end
|}.

(** ** IEEE 754 binary32: the instance [B32_Scalar]

    The [float] of the program, as the Standard Library specifies a binary
    floating-point format ([SpecFloat], here with 24 bits of precision and
    exponents up to 128): signed zeros, infinities, one NaN, and every
    operation rounded to nearest, ties to even.  A literal is the quotient
    of its numerator and denominator, rounded once.  [powf] is not an
    operation of IEEE 754 and libraries differ in its last digit: it stays a
    parameter of the instance, and whatever is proved for [B32_Scalar] is proved
    for every [powf].  Where C++ promotes an operand to [double] (the
    comparison with [1e-3], the index of the checkerboard) the instance
    computes in binary32 as everywhere else; the inputs evaluated in this
    file have literals and intermediate values that are exact in both
    formats there. *)

Definition float32 : Type := SpecFloat.spec_float.

Definition b32_of_Z (n : Z) : float32 := SpecFloat.binary_normalize 24 128 n 0 false.

Definition b32_of_Q (q : Q) : float32 :=
  SpecFloat.SFdiv 24 128 (b32_of_Z (Qnum q)) (b32_of_Z (Zpos (Qden q))).

(** Conversion to an integer type truncates toward zero; C++ leaves the
    conversion of a NaN or an infinity undefined, and the instance takes 0,
    as [XR] does. *)
Definition b32_to_int (a : float32) : Z :=
  match a with
  | SpecFloat.S754_finite s m e =>
      let n := if (0 <=? e)%Z then (Zpos m * 2 ^ e)%Z else (Zpos m / 2 ^ (- e))%Z in
      if s then (- n)%Z else n
  | _ => 0%Z
  end.

Definition B32_Scalar (powf32 : float32 -> float32 -> float32) : Scalar float32 := {|
  flit := b32_of_Q;
  fadd := SpecFloat.SFadd 24 128;
  fsub := SpecFloat.SFsub 24 128;
  fmul := SpecFloat.SFmul 24 128;
  fdiv := SpecFloat.SFdiv 24 128;
  fneg := SpecFloat.SFopp;
  fabs := SpecFloat.SFabs;
  sqrtf := SpecFloat.SFsqrt 24 128;
  powf := powf32;
  fltb := SpecFloat.SFltb;
  fleb := SpecFloat.SFleb;
  to_int := b32_to_int
|}.

(** The vector of [B32_Scalar] whose components are the literals [a], [b], [c]. *)
Definition V32 (a b c : Q) : Vec3f float32 :=
  mkVec3f (b32_of_Q a) (b32_of_Q b) (b32_of_Q c).

Definition inf32 : float32 := SpecFloat.S754_infinity false.
Definition nan32 : float32 := SpecFloat.S754_nan.

(** * Properties that hold for every interpretation of the arithmetic *)

Section TracerFacts.

Context {F : Type} {SF : Scalar F}.
Local Open Scope scalar_scope.

Implicit Types (orig dir point hit I N : Vec3f F) (spheres : list (Sphere F)).
Implicit Types (lights : list (Light F)) (st : HitState F) (mat : Material F).

(** *** The loop over the spheres *)

Lemma spheres_step_cases orig dir (s : Sphere F) (sd : F) st :
  (spheres_step orig dir (sd, st) s = (sd, st) /\
   forall d, rayIntersect s orig dir = Some d -> (d <? sd) = false) \/
  (exists d, rayIntersect s orig dir = Some d /\ (d <? sd) = true /\
             spheres_step orig dir (sd, st) s = (d, sphere_hit orig dir s d)).
Proof.
  unfold spheres_step.
  destruct (rayIntersect s orig dir) as [d|] eqn:Hd.
  - destruct (d <? sd) eqn:Hlt.
    + right. exists d. auto.
    + left. split; [reflexivity|]. intros d' [= <-]. exact Hlt.
  - left. split; [reflexivity|]. discriminate.
Qed.

Lemma fold_spheres_outcome orig dir spheres : forall acc0,
  loop_outcome orig dir spheres acc0 (fold_left (spheres_step orig dir) spheres acc0).
Proof.
  induction spheres as [|s rest IH]; intros [sd st]; cbn [fold_left].
  - now left.
  - destruct (IH (spheres_step orig dir (sd, st) s)) as [Hsame | (s' & Hin & Hs')].
    + rewrite Hsame.
      destruct (spheres_step_cases orig dir s sd st) as [[Hkeep _] | (d & Hd & _ & Hw)].
      * left. exact Hkeep.
      * right. exists s. rewrite Hw. simpl. auto.
    + right. exists s'. simpl. auto.
Qed.

Lemma spheres_loop_outcome orig dir spheres st :
  loop_outcome orig dir spheres (FLT_MAX, st) (spheres_loop orig dir spheres st).
Proof. apply fold_spheres_outcome. Qed.

(** No sphere is reported: the loop leaves everything as it was. *)
Lemma fold_spheres_miss orig dir spheres : forall acc0,
  (forall s, In s spheres -> rayIntersect s orig dir = None) ->
  fold_left (spheres_step orig dir) spheres acc0 = acc0.
Proof.
  induction spheres as [|s rest IH]; intros acc0 Hmiss; simpl; [reflexivity|].
  assert (Hs : spheres_step orig dir acc0 s = acc0).
  { destruct acc0 as [sd st]. unfold spheres_step.
    now rewrite (Hmiss s (or_introl eq_refl)). }
  rewrite Hs. apply IH. intros s' Hin. apply Hmiss. now right.
Qed.

(** *** [sceneIntersect] *)

Lemma sceneIntersect_eq orig dir spheres st :
  sceneIntersect orig dir spheres st =
  if plane_wins orig dir (fst (spheres_loop orig dir spheres st))
  then (fmin (fst (spheres_loop orig dir spheres st)) (plane_distance orig dir) <? 1000,
        (plane_point orig dir, mkVec3f 0 1 0,
         set_diffuse_color (snd (snd (spheres_loop orig dir spheres st)))
                           (checker_color (plane_point orig dir))))
  else (fmin (fst (spheres_loop orig dir spheres st)) FLT_MAX <? 1000,
        snd (spheres_loop orig dir spheres st)).
Proof.
  unfold sceneIntersect, plane_test, plane_wins.
  destruct (spheres_loop orig dir spheres st) as [sd [[h n] m]]. cbn [fst snd].
  destruct (plane_considered dir); [|reflexivity].
  destruct (plane_accepts orig dir sd); reflexivity.
Qed.


(** *** [rayCaster] *)

(** Fuel only bounds the recursion: a result obtained with some fuel is the
    result with any more. *)
Lemma refract_fuel_mono (fuel : nat) : forall I N (eta_t eta_i : F) v,
  refract_fuel fuel I N eta_t eta_i = Some v ->
  refract_fuel (S fuel) I N eta_t eta_i = Some v.
Proof.
  induction fuel as [|fuel IH]; intros I N eta_t eta_i v H; [discriminate|].
  change (refract_fuel (S (S fuel)) I N eta_t eta_i)
    with (if refract_cosi I N <? 0
          then refract_fuel (S fuel) I (vneg N) eta_i eta_t
          else Some (refract_value I N eta_t eta_i)).
  change (refract_fuel (S fuel) I N eta_t eta_i)
    with (if refract_cosi I N <? 0
          then refract_fuel fuel I (vneg N) eta_i eta_t
          else Some (refract_value I N eta_t eta_i)) in H.
  destruct (refract_cosi I N <? 0); [apply IH; exact H | exact H].
Qed.

(** The body of [rayCaster], one activation. *)
Lemma rayCaster_fuel_S (fuel : nat) (orig dir : Vec3f F) spheres lights (depth : N) :
  rayCaster_fuel (S fuel) orig dir spheres lights depth =
  if (MAXDEPTH <? depth)%N then Some BACKGROUNDCOLOR
  else
    let '(found, (point, N, mat)) :=
      sceneIntersect orig dir spheres rayCaster_locals in
    if negb found then Some BACKGROUNDCOLOR
    else
      ' refracted <- refract_fuel fuel dir N (refractive_index mat) 1 ;;
      ' reflectColor <-
        rayCaster_fuel fuel (offset_orig (normalize (reflect dir N)) point N)
          (normalize (reflect dir N)) spheres lights (size_t_succ depth) ;;
      ' refractColor <-
        rayCaster_fuel fuel (offset_orig (normalize refracted) point N)
          (normalize refracted) spheres lights (size_t_succ depth) ;;
      Some (shade mat (lights_loop spheres lights dir point N mat)
                  reflectColor refractColor).
Proof. reflexivity. Qed.

Lemma rayCaster_fuel_mono spheres lights (fuel : nat) :
  forall (orig dir : Vec3f F) (depth : N) c,
    rayCaster_fuel fuel orig dir spheres lights depth = Some c ->
    rayCaster_fuel (S fuel) orig dir spheres lights depth = Some c.
Proof.
  induction fuel as [|fuel IH]; intros orig dir depth c H; [discriminate|].
  rewrite rayCaster_fuel_S in H. rewrite rayCaster_fuel_S.
  destruct (MAXDEPTH <? depth)%N; [exact H|].
  destruct (sceneIntersect orig dir spheres rayCaster_locals) as [found [[point N] mat]].
  destruct (negb found); [exact H|].
  destruct (refract_fuel fuel dir N (refractive_index mat) 1) as [refracted|] eqn:Hr;
    [|discriminate].
  rewrite (refract_fuel_mono _ _ _ _ _ _ Hr).
  destruct (rayCaster_fuel fuel (offset_orig (normalize (reflect dir N)) point N)
              (normalize (reflect dir N)) spheres lights (size_t_succ depth))
    as [c1|] eqn:H1; [|discriminate].
  rewrite (IH _ _ _ _ H1).
  destruct (rayCaster_fuel fuel (offset_orig (normalize refracted) point N)
              (normalize refracted) spheres lights (size_t_succ depth))
    as [c2|] eqn:H2; [|discriminate].
  rewrite (IH _ _ _ _ H2). exact H.
Qed.

(** C1.  Beyond depth 10 [rayCaster] returns the background colour
    (0.3, 0.2, 0.3), whatever the ray, the spheres and the lights. *)
Theorem rayCaster_depth_cap fuel orig dir spheres lights (depth : N) :
  (10 < depth)%N ->
  rayCaster_fuel (S fuel) orig dir spheres lights depth
  = Some (mkVec3f (flit (3 # 10)) (flit (2 # 10)) (flit (3 # 10))).
Proof.
  intros Hdepth. cbn [rayCaster_fuel].
  apply N.ltb_lt in Hdepth. unfold MAXDEPTH. now rewrite Hdepth.
Qed.

(** What [rayCaster] does after a hit within the depth bound: the material
    it shades with is the one [sceneIntersect] leaves in the locals. *)
Lemma rayCaster_fuel_hit fuel orig dir spheres lights (depth : N) point N mat :
  (depth <= 10)%N ->
  sceneIntersect orig dir spheres rayCaster_locals = (true, (point, N, mat)) ->
  rayCaster_fuel (S fuel) orig dir spheres lights depth =
  ' refracted <- refract_fuel fuel dir N (refractive_index mat) 1 ;;
  ' reflectColor <-
    rayCaster_fuel fuel (offset_orig (normalize (reflect dir N)) point N)
      (normalize (reflect dir N)) spheres lights (size_t_succ depth) ;;
  ' refractColor <-
    rayCaster_fuel fuel (offset_orig (normalize refracted) point N)
      (normalize refracted) spheres lights (size_t_succ depth) ;;
  Some (shade mat (lights_loop spheres lights dir point N mat)
              reflectColor refractColor).
Proof.
  intros Hdepth Hhit. cbn [rayCaster_fuel].
  apply N.ltb_ge in Hdepth. unfold MAXDEPTH. rewrite Hdepth, Hhit.
  reflexivity.
Qed.

(** When the plane branch of [sceneIntersect] is taken, the material that
    comes out is the one left by the loop over the spheres with only
    [diffuse_color] replaced, and [rayCaster] shades the plane hit with that
    material. *)
Lemma plane_hit_material orig dir spheres st :
  plane_wins orig dir (fst (spheres_loop orig dir spheres st)) = true ->
  let mat := snd (snd (sceneIntersect orig dir spheres st)) in
  mat = set_diffuse_color (snd (snd (spheres_loop orig dir spheres st)))
                          (checker_color (plane_point orig dir))
  /\ (forall fuel lights (depth : N),
        st = rayCaster_locals -> (depth <= 10)%N ->
        fst (sceneIntersect orig dir spheres st) = true ->
        rayCaster_fuel (S fuel) orig dir spheres lights depth =
        let point := plane_point orig dir in
        let up := mkVec3f 0 1 0 in
        ' refracted <- refract_fuel fuel dir up (refractive_index mat) 1 ;;
        ' reflectColor <-
          rayCaster_fuel fuel (offset_orig (normalize (reflect dir up)) point up)
            (normalize (reflect dir up)) spheres lights (size_t_succ depth) ;;
        ' refractColor <-
          rayCaster_fuel fuel (offset_orig (normalize refracted) point up)
            (normalize refracted) spheres lights (size_t_succ depth) ;;
        Some (shade mat (lights_loop spheres lights dir point up mat)
                    reflectColor refractColor)).
Proof.
  intros Hwins mat.
  assert (Hmat : mat = set_diffuse_color (snd (snd (spheres_loop orig dir spheres st)))
                         (checker_color (plane_point orig dir))).
  { subst mat. rewrite sceneIntersect_eq, Hwins. reflexivity. }
  split; [exact Hmat|].
  intros fuel lights depth -> Hdepth Hfound. cbv zeta.
  apply rayCaster_fuel_hit; [exact Hdepth|].
  pose proof (sceneIntersect_eq orig dir spheres rayCaster_locals) as Heq.
  rewrite Hwins in Heq. subst mat.
  rewrite Heq in Hfound |- *. cbn [fst snd] in Hfound |- *.
  rewrite Hfound. reflexivity.
Qed.

End TracerFacts.

(** ** Further facts of the control flow *)

Section ControlFacts.

Context {F : Type} {SF : Scalar F}.

(** The plane branch needs the plane nearer than the spheres, and is taken
    for any bound that the plane distance is below. *)
Lemma plane_wins_lt (orig dir : Vec3f F) (sd : F) :
  plane_wins orig dir sd = true -> fltb (plane_distance orig dir) sd = true.
Proof.
  unfold plane_wins, plane_accepts. intros H.
  apply andb_prop in H as [_ H]. apply andb_prop in H as [_ H]. exact H.
Qed.

Lemma plane_wins_transfer (orig dir : Vec3f F) (sd sd' : F) :
  plane_wins orig dir sd = true -> fltb (plane_distance orig dir) sd' = true ->
  plane_wins orig dir sd' = true.
Proof.
  unfold plane_wins, plane_accepts. intros H H'.
  apply andb_prop in H as [Hc H]. apply andb_prop in H as [Hb _].
  rewrite Hc, Hb, H'. reflexivity.
Qed.

(** A ray for which [sceneIntersect] returns [false] gets the background
    colour within the depth bound as beyond it. *)
Lemma rayCaster_fuel_miss (fuel : nat) (orig dir : Vec3f F) (spheres : list (Sphere F))
  (lights : list (Light F)) (depth : N) :
  fst (sceneIntersect orig dir spheres rayCaster_locals) = false ->
  rayCaster_fuel (S fuel) orig dir spheres lights depth = Some BACKGROUNDCOLOR.
Proof.
  intros Hmiss. cbn [rayCaster_fuel].
  destruct (MAXDEPTH <? depth)%N; [reflexivity|].
  destruct (sceneIntersect orig dir spheres rayCaster_locals) as [found [[p n] m]].
  cbn [fst] in Hmiss. subst found. reflexivity.
Qed.

(** A normal that its negation leaves as it is, with [cosi < 0]: every
    activation of [refract] calls itself again. *)
Lemma refract_fuel_stuck (I N : Vec3f F) :
  vneg N = N -> fltb (refract_cosi I N) (flit 0) = true ->
  forall fuel eta_t eta_i, refract_fuel fuel I N eta_t eta_i = None.
Proof.
  intros HN Hcos fuel.
  induction fuel as [|fuel IH]; intros eta_t eta_i; [reflexivity|].
  cbn [refract_fuel]. rewrite Hcos, HN. apply IH.
Qed.

End ControlFacts.

(** * Properties in exact arithmetic: the instance [XR] *)

(** Case analysis on the innermost decision of the goal. *)
Ltac no_dec t :=
  lazymatch t with
  | context [Rlt_dec _ _] => fail
  | context [Rle_dec _ _] => fail
  | context [Req_dec_T _ _] => fail
  | context [Rcase_abs _] => fail
  | _ => idtac
  end.

Ltac xr_case :=
  match goal with
  | |- context [Rcase_abs ?a] => no_dec a; destruct (Rcase_abs a)
  | |- context [Rlt_dec ?a ?b] => no_dec a; no_dec b; destruct (Rlt_dec a b)
  | |- context [Rle_dec ?a ?b] => no_dec a; no_dec b; destruct (Rle_dec a b)
  | |- context [Req_dec_T ?a ?b] => no_dec a; no_dec b; destruct (Req_dec_T a b)
  end.

Ltac xr_solve :=
  repeat (xr_case; cbn); try reflexivity; try lra; try (f_equal; lra);
  try (do 2 f_equal; lra).

(** Evaluation of a closed term of [XR]: unfold, then decide each comparison
    by linear arithmetic. *)
Ltac xr_eval :=
  unfold V3, normalize, norm, dot, vadd, vsub, vscale, vneg;
  cbn; unfold Q2R, Rabs; simpl;
  repeat (xr_case; try lra; cbn; unfold Rabs).

Section ExactArithmetic.

Local Open Scope R_scope.

(** ** Evaluating the instance *)

Lemma Q2R_0 : Q2R (0 # 1) = 0. Proof. unfold Q2R; simpl; lra. Qed.

Lemma Q2R_1 : Q2R (1 # 1) = 1. Proof. unfold Q2R; simpl; lra. Qed.

(** A comparison that holds, or an operation with a result, has numbers for
    arguments. *)

Lemma xltb_true (a b : XR) :
  fltb a b = true -> exists u v, a = Some u /\ b = Some v /\ u < v.
Proof.
  destruct a as [u|], b as [v|]; cbn; try discriminate.
  destruct (Rlt_dec u v); [|discriminate]. intros _. eauto.
Qed.

Lemma fadd_Some (a b : XR) c :
  fadd a b = Some c -> exists u v, a = Some u /\ b = Some v /\ c = u + v.
Proof. destruct a, b; cbn; try discriminate. intros [= <-]. eauto. Qed.

Lemma fsub_Some (a b : XR) c :
  fsub a b = Some c -> exists u v, a = Some u /\ b = Some v /\ c = u - v.
Proof. destruct a, b; cbn; try discriminate. intros [= <-]. eauto. Qed.

Lemma fmul_Some (a b : XR) c :
  fmul a b = Some c -> exists u v, a = Some u /\ b = Some v /\ c = u * v.
Proof. destruct a, b; cbn; try discriminate. intros [= <-]. eauto. Qed.

Lemma fdiv_Some (a b : XR) c :
  fdiv a b = Some c -> exists u v, a = Some u /\ b = Some v /\ v <> 0 /\ c = u / v.
Proof.
  destruct a as [u|], b as [v|]; cbn; try discriminate.
  destruct (Req_dec_T v 0); [discriminate|]. intros [= <-]. eauto 6.
Qed.

Lemma fneg_Some (a : XR) c : fneg a = Some c -> exists u, a = Some u /\ c = - u.
Proof. destruct a; cbn; try discriminate. intros [= <-]. eauto. Qed.

Lemma fabs_Some (a : XR) c : fabs a = Some c -> exists u, a = Some u /\ c = Rabs u.
Proof. destruct a; cbn; try discriminate. intros [= <-]. eauto. Qed.

(** [std::max] and [std::min] on numbers. *)

Lemma fmax_real (a b : R) : fmax (Some a) (Some b) = Some (Rmax a b).
Proof.
  unfold fmax, Rmax. cbn.
  destruct (Rlt_dec a b), (Rle_dec a b); try reflexivity; try lra; f_equal; lra.
Qed.

Lemma fmin_real (a b : R) : fmin (Some a) (Some b) = Some (Rmin a b).
Proof.
  unfold fmin, Rmin. cbn.
  destruct (Rlt_dec b a), (Rle_dec a b); try reflexivity; try lra; f_equal; lra.
Qed.

(** A dot product is a number exactly when all six components are. *)

Lemma dot_None_cases (I N : Vec3f XR) :
  (exists q, dot I N = Some q /\ finite3 I /\ finite3 N) \/
  (dot I N = None /\ dot I (vneg N) = None).
Proof.
  destruct I as [[a|] [b|] [c|]], N as [[d|] [e|] [f|]];
    try (right; split; reflexivity).
  left. eexists. split; [reflexivity|]. split; repeat eexists.
Qed.

Lemma vsub_finite_inv (a b : Vec3f XR) :
  finite3 (vsub a b) -> finite3 a /\ finite3 b.
Proof.
  destruct a as [[a1|] [a2|] [a3|]], b as [[b1|] [b2|] [b3|]];
    intros (u & v & w & H); try discriminate H.
  split; repeat eexists.
Qed.

Lemma finite3_dec (v : Vec3f XR) : finite3 v \/ ~ finite3 v.
Proof.
  destruct v as [[a|] [b|] [c|]];
    try (right; intros (u & v & w & H); discriminate H).
  left. repeat eexists.
Qed.

(** ** [Sphere::rayIntersect] *)

(** The function on real arguments, with the names of the source. *)

Lemma rayIntersect_real (cx cy cz r ox oy oz dx dy dz : R) (m : Material XR) :
  let tca := (cx - ox) * dx + (cy - oy) * dy + (cz - oz) * dz in
  let d2 := (cx - ox) * (cx - ox) + (cy - oy) * (cy - oy) + (cz - oz) * (cz - oz)
            - tca * tca in
  let thc := sqrt (r * r - d2) in
  rayIntersect (mkSphere (V3 cx cy cz) (Some r) m) (V3 ox oy oz) (V3 dx dy dz)
  = if Rlt_dec (r * r) d2 then None
    else if Rlt_dec (tca - thc) 0
         then (if Rle_dec 0 (tca + thc) then Some (Some (tca + thc)) else None)
         else Some (Some (tca - thc)).
Proof.
  intros tca d2 thc. unfold rayIntersect. cbn. rewrite Q2R_0.
  fold tca. fold d2. fold thc.
  destruct (Rlt_dec (r * r) d2); [reflexivity|].
  destruct (Rlt_dec (r * r - d2) 0); [lra|]. cbn. fold thc.
  destruct (Rlt_dec (tca - thc) 0); cbn.
  - destruct (Rle_dec 0 (tca + thc)); reflexivity.
  - destruct (Rle_dec 0 (tca - thc)); [reflexivity | lra].
Qed.

(** The entry distance for a sphere centred on the axis of the ray. *)
Lemma rayIntersect_on_axis ox oy oz dx dy dz D r (m : Material XR) :
  dx * dx + dy * dy + dz * dz = 1 -> 0 < r -> r < D ->
  rayIntersect (mkSphere (V3 (ox + dx * D) (oy + dy * D) (oz + dz * D)) (Some r) m)
               (V3 ox oy oz) (V3 dx dy dz)
  = Some (Some (D - r)).
Proof.
  intros Hunit Hr HD.
  rewrite rayIntersect_real.
  assert (Htca : (ox + dx * D - ox) * dx + (oy + dy * D - oy) * dy
                 + (oz + dz * D - oz) * dz = D).
  { transitivity (D * (dx * dx + dy * dy + dz * dz)); [ring | rewrite Hunit; ring]. }
  rewrite Htca.
  assert (Hd2 : (ox + dx * D - ox) * (ox + dx * D - ox)
                + (oy + dy * D - oy) * (oy + dy * D - oy)
                + (oz + dz * D - oz) * (oz + dz * D - oz) - D * D = 0).
  { transitivity (D * D * (dx * dx + dy * dy + dz * dz) - D * D);
      [ring | rewrite Hunit; ring]. }
  rewrite Hd2.
  replace (r * r - 0) with (r * r) by ring.
  rewrite sqrt_square by lra.
  destruct (Rlt_dec (r * r) 0); [nra|].
  destruct (Rlt_dec (D - r) 0); [lra | reflexivity].
Qed.


(** A reported sphere: every argument is a number, and the distance is one
    of the two roots [tca - thc], [tca + thc]. *)

Lemma rayIntersect_Some_real (s : Sphere XR) (orig dir : Vec3f XR) (t : XR) :
  rayIntersect s orig dir = Some t ->
  exists cx cy cz r ox oy oz dx dy dz tr,
    center s = V3 cx cy cz /\ radius s = Some r /\
    orig = V3 ox oy oz /\ dir = V3 dx dy dz /\ t = Some tr /\
    let tca := (cx - ox) * dx + (cy - oy) * dy + (cz - oz) * dz in
    let d2 := (cx - ox) * (cx - ox) + (cy - oy) * (cy - oy) + (cz - oz) * (cz - oz)
              - tca * tca in
    (tr - tca) * (tr - tca) = r * r - d2.
Proof.
  intros H.
  destruct (dot_None_cases (vsub (center s) orig) dir)
    as [(q & Hq & Hoc & (dx & dy & dz & ->)) | [Hnone _]].
  - apply vsub_finite_inv in Hoc as [(cx & cy & cz & Hc) (ox & oy & oz & ->)].
    destruct s as [c [r|] m]; cbn in Hc; subst c.
    + rewrite rayIntersect_real in H.
      set (tca := (cx - ox) * dx + (cy - oy) * dy + (cz - oz) * dz) in *.
      set (d2 := (cx - ox) * (cx - ox) + (cy - oy) * (cy - oy)
                 + (cz - oz) * (cz - oz) - tca * tca) in *.
      destruct (Rlt_dec (r * r) d2) as [|Hd2]; [discriminate|].
      assert (Hsq : sqrt (r * r - d2) * sqrt (r * r - d2) = r * r - d2)
        by (apply sqrt_sqrt; lra).
      destruct (Rlt_dec (tca - sqrt (r * r - d2)) 0).
      * destruct (Rle_dec 0 (tca + sqrt (r * r - d2))); [|discriminate].
        injection H as <-.
        exists cx, cy, cz, r, ox, oy, oz, dx, dy, dz, (tca + sqrt (r * r - d2)).
        repeat split. cbv zeta. fold tca. fold d2. rewrite <- Hsq at 3. ring.
      * injection H as <-.
        exists cx, cy, cz, r, ox, oy, oz, dx, dy, dz, (tca - sqrt (r * r - d2)).
        repeat split. cbv zeta. fold tca. fold d2. rewrite <- Hsq at 3. ring.
    + exfalso. revert H. unfold rayIntersect. cbn. discriminate.
  - exfalso. revert H. unfold rayIntersect. rewrite Hnone.
    generalize (dot (vsub (center s) orig) (vsub (center s) orig)).
    generalize (fmul (radius s) (radius s)).
    intros [a|] [b|]; cbn; discriminate.
Qed.

(** ** [refract] *)

Lemma clampR_opp q : clampR (- q) = - clampR q.
Proof.
  unfold clampR.
  destruct (Rlt_dec (- q) 1), (Rlt_dec q 1);
  repeat match goal with |- context [Rlt_dec ?a ?b] => destruct (Rlt_dec a b) end; lra.
Qed.

Lemma clampR_bounds q : -1 <= clampR q <= 1.
Proof.
  unfold clampR. destruct (Rlt_dec q 1);
  repeat match goal with |- context [Rlt_dec ?a ?b] => destruct (Rlt_dec a b) end; lra.
Qed.

Lemma refract_cosi_real a b c d e f :
  refract_cosi (V3 a b c) (V3 d e f) = Some (- clampR (a * d + b * e + c * f)).
Proof.
  unfold refract_cosi, fmax, fmin, clampR. cbn. rewrite Q2R_1.
  set (q := a * d + b * e + c * f).
  xr_solve.
Qed.

Lemma refract_cosi_nan (I N : Vec3f XR) :
  dot I N = None -> refract_cosi I N = Some (-1).
Proof.
  intros H. unfold refract_cosi, fmax, fmin. rewrite H. cbn.
  rewrite Q2R_1. xr_solve.
Qed.

(** Without a number for [I * N], [cosi] is -1 in every activation: the
    self-calls do not end. *)

Lemma refract_fuel_nan (I N : Vec3f XR) :
  dot I N = None -> forall fuel eta_t eta_i, refract_fuel fuel I N eta_t eta_i = None.
Proof.
  intros H fuel. revert N H.
  induction fuel as [|fuel IH]; intros N H eta_t eta_i; [reflexivity|].
  cbn [refract_fuel]. rewrite (refract_cosi_nan _ _ H). cbn. rewrite Q2R_0.
  destruct (Rlt_dec (-1) 0); [|lra].
  apply IH. destruct (dot_None_cases I N) as [(q & Hq & _) | [_ Hn]]; [congruence | exact Hn].
Qed.

(** On vectors of numbers the second activation returns. *)

Lemma refract_fuel_real a b c d e f eta_t eta_i fuel :
  refract_fuel (S (S fuel)) (V3 a b c) (V3 d e f) eta_t eta_i =
  Some (if Rlt_dec 0 (a * d + b * e + c * f)
        then refract_value (V3 a b c) (vneg (V3 d e f)) eta_i eta_t
        else refract_value (V3 a b c) (V3 d e f) eta_t eta_i).
Proof.
  cbn [refract_fuel]. rewrite refract_cosi_real.
  set (q := a * d + b * e + c * f).
  pose proof (clampR_bounds q) as Hb.
  assert (Hsign : 0 < q <-> 0 < clampR q).
  { unfold clampR. repeat xr_case; split; lra. }
  change (vneg (V3 d e f)) with (V3 (- d) (- e) (- f)).
  rewrite refract_cosi_real.
  replace (a * - d + b * - e + c * - f) with (- q) by (subst q; ring).
  rewrite clampR_opp. cbn. rewrite Q2R_0.
  destruct (Rlt_dec 0 q) as [Hq|Hq].
  - destruct (Rlt_dec (- clampR q) 0); [|lra].
    destruct (Rlt_dec (- - clampR q) 0); [lra | reflexivity].
  - destruct (Rlt_dec (- clampR q) 0); [lra | reflexivity].
Qed.

Lemma refract_fuel_finite (I N : Vec3f XR) (eta_t eta_i : XR) :
  finite3 I -> finite3 N ->
  exists v, forall fuel, refract_fuel (S (S fuel)) I N eta_t eta_i = Some v.
Proof.
  intros (a & b & c & ->) (d & e & f & ->).
  eexists. intros fuel. apply refract_fuel_real.
Qed.

Lemma refract_value_same_index a b c d e f eta :
  eta <> 0 -> clampR (a * d + b * e + c * f) <= 0 ->
  refract_value (V3 a b c) (V3 d e f) (Some eta) (Some eta) = V3 a b c.
Proof.
  intros Heta Hc. unfold refract_value, refract_k.
  rewrite refract_cosi_real.
  set (ci := - clampR (a * d + b * e + c * f)).
  assert (Hci : 0 <= ci) by (subst ci; lra).
  cbn. destruct (Req_dec_T eta 0) as [|_]; [contradiction|]. cbn.
  rewrite Q2R_0, Q2R_1.
  replace (eta / eta) with 1 by (field; exact Heta).
  replace (1 - 1 * 1 * (1 - ci * ci)) with (ci * ci) by ring.
  destruct (Rlt_dec (ci * ci) 0); [nra|]. cbn.
  destruct (Rlt_dec (ci * ci) 0); [nra|]. cbn.
  rewrite sqrt_square by exact Hci.
  unfold V3, vadd, vscale. cbn. f_equal; f_equal; ring.
Qed.




(** The activation reached when at most one self-call is made returns
    [refract_value] on its own arguments. *)
Lemma refract_fuel_last a b c d e f (eta_t eta_i : XR) (fuel : nat) :
  refract_fuel (S (S fuel)) (V3 a b c) (V3 d e f) eta_t eta_i
  = Some (let '(N', (t', i')) :=
            refract_last_args (V3 a b c) (V3 d e f) eta_t eta_i in
          refract_value (V3 a b c) N' t' i').
Proof.
  rewrite refract_fuel_real. unfold refract_last_args.
  rewrite refract_cosi_real. cbn. rewrite Q2R_0.
  set (q := a * d + b * e + c * f).
  assert (Hsign : 0 < q <-> 0 < clampR q).
  { unfold clampR. repeat xr_case; split; lra. }
  destruct (Rlt_dec 0 q), (Rlt_dec (- clampR q) 0); try reflexivity; lra.
Qed.

(** X23.  In exact arithmetic, for an incident vector and a normal given
    by numbers: whenever the discriminant [k] computed by the activation of
    [refract] that returns is negative, [refract] returns (1, 0, 0), in its
    first activation or in the self-call that the first one makes with the
    normal negated and the indices swapped. *)
Theorem refract_negative_discriminant a b c d e f (eta_t eta_i : XR) :
  fltb (refract_last_k (V3 a b c) (V3 d e f) eta_t eta_i) (flit (0 # 1)) = true ->
  forall fuel, refract_fuel (S (S fuel)) (V3 a b c) (V3 d e f) eta_t eta_i
               = Some (mkVec3f (flit (1 # 1)) (flit (0 # 1)) (flit (0 # 1))).
Proof.
  intros Hk fuel.
  rewrite refract_fuel_last. unfold refract_last_k in Hk.
  destruct (refract_last_args (V3 a b c) (V3 d e f) eta_t eta_i) as [N' [t' i']].
  unfold refract_value. rewrite Hk. reflexivity.
Qed.

(** ** The checkerboard *)

Lemma int_add_small (a b : Z) :
  (- 2 ^ 31 <= a + b < 2 ^ 31)%Z -> int_add a b = (a + b)%Z.
Proof. intros H. unfold int_add. rewrite Z.mod_small; lia. Qed.

Lemma land_1_even (n : Z) : (Z.land n 1 =? 0)%Z = Z.even n.
Proof.
  change 1%Z with (Z.ones 1). rewrite Z.land_ones by lia.
  change (2 ^ 1)%Z with 2%Z. rewrite Zmod_odd, Zeven.Zeven_odd_bool.
  destruct (Z.odd n); reflexivity.
Qed.

Lemma checker_index_real hx hy hz :
  -10 < hx < 10 -> -30 < hz < -10 ->
  checker_index (V3 hx hy hz) = (Zfloor (hx / 2 + 1000) + Zceil (hz / 2))%Z.
Proof.
  intros Hx Hz. unfold checker_index. cbn.
  replace (Q2R (1 # 2) * hx + Q2R (1000 # 1)) with (hx / 2 + 1000)
    by (unfold Q2R; simpl; lra).
  replace (Q2R (1 # 2) * hz) with (hz / 2) by (unfold Q2R; simpl; lra).
  destruct (Rle_dec 0 (hx / 2 + 1000)); [|lra].
  destruct (Rle_dec 0 (hz / 2)); [lra|].
  apply int_add_small.
  assert (994 < Zfloor (hx / 2 + 1000) < 1006)%Z.
  { pose proof (Zfloor_bound (hx / 2 + 1000)) as [Hb1 Hb2].
    split; apply lt_IZR; lra. }
  assert (-16 < Zceil (hz / 2) < -4)%Z.
  { pose proof (Zceil_bound (hz / 2)) as [Hb1 Hb2].
    split; apply lt_IZR; lra. }
  lia.
Qed.

Lemma checker_color_real hx hy hz :
  -10 < hx < 10 -> -30 < hz < -10 ->
  checker_color (V3 hx hy hz)
  = if Z.odd (Zfloor (hx / 2 + 1000) + Zceil (hz / 2))
    then mkVec3f (flit (3 # 10)) (flit (3 # 10)) (flit (3 # 10))
    else mkVec3f (flit (1 # 10)) (flit (1 # 10)) (flit (1 # 10)).
Proof.
  intros Hx Hz. unfold checker_color.
  rewrite land_1_even, checker_index_real by assumption.
  rewrite Zeven.Zeven_odd_bool.
  destruct (Z.odd _); reflexivity.
Qed.

(** What an accepted plane point is in [XR]. *)

Lemma plane_accepts_real (orig dir : Vec3f XR) (sd : XR) :
  plane_accepts orig dir sd = true ->
  exists ox oy oz dx dy dz t,
    orig = V3 ox oy oz /\ dir = V3 dx dy dz /\
    plane_distance orig dir = Some t /\ 0 < t /\
    plane_point orig dir = V3 (ox + dx * t) (oy + dy * t) (oz + dz * t) /\
    -10 < ox + dx * t < 10 /\ -30 < oz + dz * t < -10.
Proof.
  unfold plane_accepts. intros H.
  apply andb_prop in H as [H _]. apply andb_prop in H as [H H4].
  apply andb_prop in H as [H H3]. apply andb_prop in H as [H1 H2].
  apply xltb_true in H1 as (u1 & t & Hu1 & Ht & Hpos).
  injection Hu1 as <-. rewrite Q2R_0 in Hpos.
  unfold plane_point in *. rewrite Ht in *.
  destruct orig as [ox' oy' oz'], dir as [dx' dy' dz'].
  unfold plane_distance in Ht. cbn in Ht.
  apply fdiv_Some in Ht as (num & dy & Hnum & -> & _ & _).
  apply fneg_Some in Hnum as (s & Hs & _).
  apply fadd_Some in Hs as (oy & five & -> & _ & _).
  apply xltb_true in H2 as (u2 & v2 & Hu2 & Hv2 & Hx).
  apply xltb_true in H3 as (u3 & v3 & Hu3 & Hv3 & Hz1).
  apply xltb_true in H4 as (u4 & v4 & Hu4 & Hv4 & Hz2).
  cbn in Hu2, Hu3, Hv4.
  apply fabs_Some in Hu2 as (px & Hpx & ->).
  apply fadd_Some in Hpx as (ox & mx & -> & Hmx & ->).
  apply fmul_Some in Hmx as (dx & t' & -> & [= <-] & ->).
  apply fadd_Some in Hu3 as (oz & mz & -> & Hmz & ->).
  apply fmul_Some in Hmz as (dz & t' & -> & [= <-] & ->).
  cbn in Hv2, Hv3, Hu4, Hv4.
  injection Hv2 as <-. injection Hv3 as <-. injection Hu4 as <-. injection Hv4 as <-.
  exists ox, oy, oz, dx, dy, dz, t.
  apply Rabs_def2 in Hx. unfold Q2R in *. simpl in *.
  repeat split; try reflexivity; lra.
Qed.





(** The literal coordinates the specification names, x = 0, z = 0 and x = 1,
    z = 0, give the same parity, hence the same colour. *)
Remark checker_literal_coordinates (hy : R) :
  checker_color (V3 0 hy 0) = checker_color (V3 1 hy 0).
Proof.
  assert (H0 : checker_index (V3 0 hy 0) = 1000%Z).
  { unfold checker_index. cbn.
    replace (Q2R (1 # 2) * 0 + Q2R (1000 # 1)) with 1000 by (unfold Q2R; simpl; lra).
    replace (Q2R (1 # 2) * 0) with 0 by (unfold Q2R; simpl; lra).
    destruct (Rle_dec 0 1000); [|lra]. destruct (Rle_dec 0 0); [|lra].
    rewrite (Zfloor_eq 1000), (Zfloor_eq 0) by lra. reflexivity. }
  assert (H1 : checker_index (V3 1 hy 0) = 1000%Z).
  { unfold checker_index. cbn.
    replace (Q2R (1 # 2) * 1 + Q2R (1000 # 1)) with (1000 + 1 / 2)
      by (unfold Q2R; simpl; lra).
    replace (Q2R (1 # 2) * 0) with 0 by (unfold Q2R; simpl; lra).
    destruct (Rle_dec 0 (1000 + 1 / 2)); [|lra]. destruct (Rle_dec 0 0); [|lra].
    rewrite (Zfloor_eq 1000 (1000 + 1 / 2)), (Zfloor_eq 0) by lra. reflexivity. }
  unfold checker_color. now rewrite H0, H1.
Qed.

(** ** Tone mapping *)

Lemma channel_max_real r g b :
  channel_max (V3 r g b) = Some (Rmax r (Rmax g b)).
Proof. unfold channel_max. cbn. now rewrite !fmax_real. Qed.

Lemma clamp01_real (u : R) : clamp01 (Some u) = Some (Rmax 0 (Rmin 1 u)).
Proof.
  unfold clamp01. change (flit (1 # 1)) with (Some (Q2R (1 # 1))).
  change (flit (0 # 1)) with (Some (Q2R (0 # 1))).
  now rewrite Q2R_0, Q2R_1, fmin_real, fmax_real.
Qed.

Lemma clamp01_nan : clamp01 (None : XR) = Some 1.
Proof. unfold clamp01, fmax, fmin. xr_eval; f_equal; lra. Qed.

Lemma quantize_real (u : R) :
  quantize (Some u) = Zfloor (255 * Rmax 0 (Rmin 1 u)) /\
  (0 <= quantize (Some u) <= 255)%Z.
Proof.
  unfold quantize. rewrite clamp01_real.
  set (c := Rmax 0 (Rmin 1 u)).
  assert (Hc : 0 <= c <= 1).
  { subst c. unfold Rmax, Rmin. repeat (match goal with |- context [Rle_dec ?a ?b] => destruct (Rle_dec a b) end); lra. }
  cbn. replace (Q2R (255 # 1) * c) with (255 * c) by (unfold Q2R; simpl; lra).
  destruct (Rle_dec 0 (255 * c)); [|lra].
  assert (Hf : (0 <= Zfloor (255 * c) < 256)%Z).
  { pose proof (Zfloor_bound (255 * c)) as [Hb1 Hb2].
    split; [apply Zfloor_lub; lra | apply lt_IZR; lra]. }
  rewrite Z.mod_small by lia. split; [reflexivity | lia].
Qed.

(** C9.  In exact arithmetic, tone mapping of a pixel: when the largest
    channel exceeds 1 every channel is divided by it; a colour with all
    channels at most 1 is left as it is; (2, 1, 0.5) becomes (1, 0.5, 0.25);
    then each channel is clamped to [0, 1], multiplied by 255 and converted
    to a byte, which lies between 0 and 255. *)
Theorem tone_map_scaling :
  (forall r g b, 1 < Rmax r (Rmax g b) ->
     tone_map (V3 r g b)
     = V3 (r / Rmax r (Rmax g b)) (g / Rmax r (Rmax g b)) (b / Rmax r (Rmax g b)))
  /\ (forall r g b, r <= 1 -> g <= 1 -> b <= 1 -> tone_map (V3 r g b) = V3 r g b)
  /\ tone_map (V3 2 1 (1 / 2)) = V3 1 (1 / 2) (1 / 4)
  /\ (forall c : Vec3f XR,
        pixel_bytes c = [quantize (x (tone_map c)); quantize (y (tone_map c));
                         quantize (z (tone_map c))])
  /\ (forall v : XR,
        (0 <= quantize v <= 255)%Z /\
        forall u, v = Some u -> quantize v = Zfloor (255 * Rmax 0 (Rmin 1 u))).
Proof.
  assert (Hscale : forall r g b, 1 < Rmax r (Rmax g b) ->
     tone_map (V3 r g b)
     = V3 (r / Rmax r (Rmax g b)) (g / Rmax r (Rmax g b)) (b / Rmax r (Rmax g b))).
  { intros r g b Hmax. unfold tone_map. rewrite channel_max_real.
    set (m := Rmax r (Rmax g b)) in *.
    cbn. rewrite Q2R_1. destruct (Rlt_dec 1 m); [|lra].
    destruct (Req_dec_T m 0); [lra|].
    unfold V3, vscale. cbn. f_equal; f_equal; field; lra. }
  split; [exact Hscale|]. split; [|split; [|split]].
  - intros r g b Hr Hg Hb. unfold tone_map. rewrite channel_max_real.
    cbn. rewrite Q2R_1.
    assert (Rmax r (Rmax g b) <= 1) by (unfold Rmax; repeat (match goal with |- context [Rle_dec ?a ?b] => destruct (Rle_dec a b) end); lra).
    destruct (Rlt_dec 1 (Rmax r (Rmax g b))); [lra | reflexivity].
  - assert (Hm : Rmax 2 (Rmax 1 (1 / 2)) = 2).
    { unfold Rmax. repeat (match goal with |- context [Rle_dec ?a ?b] => destruct (Rle_dec a b) end); lra. }
    rewrite Hscale by (rewrite Hm; lra). rewrite Hm.
    unfold V3. f_equal; f_equal; lra.
  - reflexivity.
  - intros [u|].
    + destruct (quantize_real u) as [Hq Hr]. split; [exact Hr|].
      intros u' [= <-]. exact Hq.
    + split; [|discriminate].
      unfold quantize. rewrite clamp01_nan. cbn.
      replace (Q2R (255 # 1) * 1) with 255 by (unfold Q2R; simpl; lra).
      destruct (Rle_dec 0 255); [|lra].
      rewrite (Zfloor_eq 255) by lra. cbn. lia.
Qed.

(** ** Termination of [rayCaster] *)

Lemma sum_squares_nonneg a b c : 0 <= a * a + b * b + c * c.
Proof. nra. Qed.

Lemma normalize_real a b c :
  normalize (V3 a b c)
  = if Req_dec_T (sqrt (a * a + b * b + c * c)) 0 then mkVec3f None None None
    else V3 (a * (1 / sqrt (a * a + b * b + c * c)))
            (b * (1 / sqrt (a * a + b * b + c * c)))
            (c * (1 / sqrt (a * a + b * b + c * c))).
Proof.
  unfold normalize, norm. cbn. rewrite Q2R_1.
  pose proof (sum_squares_nonneg a b c).
  destruct (Rlt_dec (a * a + b * b + c * c) 0); [lra|]. cbn.
  destruct (Req_dec_T (sqrt (a * a + b * b + c * c)) 0); reflexivity.
Qed.

Lemma normalize_not_finite (v : Vec3f XR) :
  ~ finite3 v -> normalize v = mkVec3f None None None.
Proof.
  destruct v as [[a|] [b|] [c|]]; intros Hv; try reflexivity.
  exfalso. apply Hv. repeat eexists.
Qed.

Lemma normalize_ok (v : Vec3f XR) : ray_ok (normalize v).
Proof.
  destruct (finite3_dec v) as [(a & b & c & ->) | Hv].
  - rewrite normalize_real.
    set (S := a * a + b * b + c * c).
    pose proof (sum_squares_nonneg a b c) as HS. fold S in HS.
    destruct (Req_dec_T (sqrt S) 0) as [|Hn].
    + right. intros (u & v & w & H). discriminate H.
    + left. unfold V3, dot. cbn. f_equal.
      assert (Hsq : sqrt S * sqrt S = S) by (apply sqrt_sqrt; exact HS).
      transitivity (S * (1 / (sqrt S * sqrt S))); [subst S; field; exact Hn|].
      rewrite Hsq. field. intros H0. apply Hn. rewrite H0. apply sqrt_0.
  - rewrite normalize_not_finite by exact Hv.
    right. intros (u & v' & w & H). discriminate H.
Qed.

(** The normal of a sphere hit is a vector of numbers when the direction has
    unit length and the radius is not zero: the hit point lies at distance
    [|radius|] from the centre. *)

Lemma sphere_hit_normal (s : Sphere XR) (orig dir : Vec3f XR) (t : XR) :
  rayIntersect s orig dir = Some t ->
  ray_ok dir -> radius s <> Some 0 ->
  finite3 dir /\ finite3 (snd (fst (sphere_hit orig dir s t))).
Proof.
  intros Hhit Hdir Hrad.
  apply rayIntersect_Some_real in Hhit
    as (cx & cy & cz & r & ox & oy & oz & dx & dy & dz & tr
        & Hc & Hr & -> & -> & -> & Hroot).
  cbv zeta in Hroot.
  split; [repeat eexists|].
  assert (Hunit : dx * dx + dy * dy + dz * dz = 1).
  { destruct Hdir as [Hu | Hn].
    - unfold dot, V3 in Hu. cbn in Hu. now injection Hu.
    - exfalso. apply Hn. repeat eexists. }
  assert (Hr0 : r <> 0) by (intros ->; apply Hrad; exact Hr).
  unfold sphere_hit. cbn [fst snd]. rewrite Hc.
  change (vsub (vadd (V3 ox oy oz) (vscale (V3 dx dy dz) (Some tr))) (V3 cx cy cz))
    with (V3 (ox + dx * tr - cx) (oy + dy * tr - cy) (oz + dz * tr - cz)).
  rewrite normalize_real.
  set (S := (ox + dx * tr - cx) * (ox + dx * tr - cx)
            + (oy + dy * tr - cy) * (oy + dy * tr - cy)
            + (oz + dz * tr - cz) * (oz + dz * tr - cz)).
  assert (HS : S = r * r).
  { set (tca := (cx - ox) * dx + (cy - oy) * dy + (cz - oz) * dz) in *.
    set (oc2 := (cx - ox) * (cx - ox) + (cy - oy) * (cy - oy)
                + (cz - oz) * (cz - oz)) in *.
    transitivity (oc2 - tca * tca + (tr - tca) * (tr - tca)).
    - transitivity (tr * tr * (dx * dx + dy * dy + dz * dz) - 2 * tr * tca + oc2);
        [subst S tca oc2; ring | rewrite Hunit; ring].
    - rewrite Hroot. ring. }
  destruct (Req_dec_T (sqrt S) 0) as [H0|_].
  - exfalso. apply sqrt_eq_0 in H0; [|rewrite HS; nra].
    rewrite HS in H0. apply Hr0. nra.
  - repeat eexists.
Qed.

Lemma FLT_MAX_not_below_1000 :
  fltb (fmin (FLT_MAX : XR) FLT_MAX) (flit (1000 # 1)) = false.
Proof. unfold fmin, FLT_MAX. xr_eval; reflexivity. Qed.

(** After a hit, the direction and the normal are vectors of numbers. *)

Lemma sceneIntersect_hit_finite (orig dir : Vec3f XR) spheres st point N mat :
  ray_ok dir ->
  (forall s, In s spheres -> radius s <> Some 0) ->
  sceneIntersect orig dir spheres st = (true, (point, N, mat)) ->
  finite3 dir /\ finite3 N.
Proof.
  intros Hdir Hrad Hsi. rewrite sceneIntersect_eq in Hsi.
  destruct (plane_wins orig dir (fst (spheres_loop orig dir spheres st))) eqn:Hw.
  - injection Hsi as _ _ <- _.
    unfold plane_wins in Hw. apply andb_prop in Hw as [_ Hacc].
    apply plane_accepts_real in Hacc
      as (ox & oy & oz & dx & dy & dz & t & _ & -> & _).
    split; repeat eexists.
  - destruct (spheres_loop_outcome orig dir spheres st) as [Hsame | (s & Hin & Hd & Hst)].
    + rewrite Hsame in Hsi. cbn [fst] in Hsi.
      rewrite FLT_MAX_not_below_1000 in Hsi. discriminate.
    + destruct (spheres_loop orig dir spheres st) as [sd st1].
      cbn [fst snd] in *. injection Hsi as _ Hst1. subst st1.
      pose proof (sphere_hit_normal s orig dir sd Hd Hdir (Hrad s Hin)) as [Hf HN].
      rewrite <- Hst in HN. cbn in HN. tauto.
Qed.

Lemma size_t_succ_small (depth : N) :
  (depth <= 10)%N -> size_t_succ depth = (depth + 1)%N.
Proof. intros H. unfold size_t_succ. apply N.mod_small. lia. Qed.

(** In exact arithmetic, with [n] levels of recursion left below the depth
    bound, fuel [n + 2] is enough; the directions of the recursive calls are
    normalized vectors.  (Not so in binary32, where a hit point can round
    to the centre of a sphere and the normal is then not a number.) *)
Lemma rayCaster_total_levels (spheres : list (Sphere XR)) (lights : list (Light XR)) :
  (forall s, In s spheres -> radius s <> Some 0) ->
  forall (n : nat) (depth : N) (orig dir : Vec3f XR),
    (11 <= N.of_nat n + depth)%N -> ray_ok dir ->
    exists c, forall fuel, (n + 2 <= fuel)%nat ->
      rayCaster_fuel fuel orig dir spheres lights depth = Some c.
Proof.
  intros Hrad. induction n as [|n IH]; intros depth orig dir Hn Hdir.
  - exists BACKGROUNDCOLOR. intros [|fuel] Hfuel; [lia|].
    cbn [rayCaster_fuel]. unfold MAXDEPTH.
    assert (H : (10 <? depth)%N = true) by (apply N.ltb_lt; lia).
    now rewrite H.
  - destruct (N.ltb MAXDEPTH depth) eqn:Hdepth.
    { exists BACKGROUNDCOLOR. intros [|fuel] Hfuel; [lia|].
      cbn [rayCaster_fuel]. now rewrite Hdepth. }
    apply N.ltb_ge in Hdepth. unfold MAXDEPTH in Hdepth.
    destruct (sceneIntersect orig dir spheres rayCaster_locals)
      as [[|] [[point N] mat]] eqn:Hsi.
    + destruct (sceneIntersect_hit_finite _ _ _ _ _ _ _ Hdir Hrad Hsi) as [HfI HfN].
      destruct (refract_fuel_finite dir N (refractive_index mat) (flit (1 # 1)) HfI HfN)
        as [refracted Href].
      assert (Hn' : (11 <= N.of_nat n + size_t_succ depth)%N)
        by (rewrite size_t_succ_small by exact Hdepth; lia).
      destruct (IH (size_t_succ depth)
                   (offset_orig (normalize (reflect dir N)) point N)
                   (normalize (reflect dir N)) Hn' (normalize_ok _))
        as [reflectColor Hrefl].
      destruct (IH (size_t_succ depth)
                   (offset_orig (normalize refracted) point N)
                   (normalize refracted) Hn' (normalize_ok _))
        as [refractColor Hrefr].
      exists (shade mat (lights_loop spheres lights dir point N mat)
                    reflectColor refractColor).
      intros [|fuel] Hfuel; [lia|].
      rewrite (rayCaster_fuel_hit fuel orig dir spheres lights depth point N mat
                 Hdepth Hsi).
      destruct fuel as [|[|fuel]]; [lia | lia |].
      rewrite Href, Hrefl, Hrefr by lia. reflexivity.
    + exists BACKGROUNDCOLOR. intros [|fuel] Hfuel; [lia|].
      cbn [rayCaster_fuel].
      assert (H : (MAXDEPTH <? depth)%N = false) by (apply N.ltb_ge; exact Hdepth).
      rewrite H, Hsi. reflexivity.
Qed.

(** From the centre of a sphere the zero direction hits the sphere at the
    centre itself, and the normal, a zero vector normalized, is undefined. *)
Lemma sceneIntersect_zero_direction :
  exists point mat,
    sceneIntersect (V3 0 0 (-5)) (V3 0 0 0)
      [mkSphere (V3 0 0 (-5)) (Some 1) Material_default] rayCaster_locals
    = (true, (point, mkVec3f None None None, mat)).
Proof.
  assert (Hri : rayIntersect (mkSphere (V3 0 0 (-5)) (Some 1) Material_default)
                  (V3 0 0 (-5)) (V3 0 0 0) = Some (Some 1)).
  { rewrite rayIntersect_real. cbv zeta.
    replace ((0 - 0) * (0 - 0) + (0 - 0) * (0 - 0) + (-5 - -5) * (-5 - -5)
             - ((0 - 0) * 0 + (0 - 0) * 0 + (-5 - -5) * 0)
               * ((0 - 0) * 0 + (0 - 0) * 0 + (-5 - -5) * 0)) with 0 by ring.
    replace ((0 - 0) * 0 + (0 - 0) * 0 + (-5 - -5) * 0) with 0 by ring.
    replace (1 * 1 - 0) with 1 by ring. rewrite sqrt_1.
    destruct (Rlt_dec (1 * 1) 0); [lra|].
    destruct (Rlt_dec (0 - 1) 0); [|lra].
    destruct (Rle_dec 0 (0 + 1)); [|lra].
    do 2 f_equal. ring. }
  assert (Hloop : spheres_loop (V3 0 0 (-5)) (V3 0 0 0)
                    [mkSphere (V3 0 0 (-5)) (Some 1) Material_default] rayCaster_locals
                  = (Some 1, sphere_hit (V3 0 0 (-5)) (V3 0 0 0)
                               (mkSphere (V3 0 0 (-5)) (Some 1) Material_default)
                               (Some 1))).
  { unfold spheres_loop. cbn [fold_left]. unfold spheres_step. rewrite Hri.
    assert (Hlt : fltb (Some 1 : XR) FLT_MAX = true)
      by (unfold FLT_MAX; xr_eval; reflexivity).
    rewrite Hlt. reflexivity. }
  assert (Hplane : plane_wins (V3 0 0 (-5)) (V3 0 0 0) (Some 1 : XR) = false).
  { unfold plane_wins, plane_considered. xr_eval; reflexivity. }
  rewrite sceneIntersect_eq, Hloop. cbn [fst snd]. rewrite Hplane.
  assert (Hfound : fltb (fmin (Some 1 : XR) FLT_MAX) (flit (1000 # 1)) = true)
    by (unfold fmin, FLT_MAX; xr_eval; reflexivity).
  rewrite Hfound. unfold sphere_hit. cbn [center material].
  change (vsub (vadd (V3 0 0 (-5)) (vscale (V3 0 0 0) (Some 1))) (V3 0 0 (-5)))
    with (V3 (0 + 0 * 1 - 0) (0 + 0 * 1 - 0) (-5 + 0 * 1 - -5)).
  rewrite normalize_real.
  replace ((0 + 0 * 1 - 0) * (0 + 0 * 1 - 0) + (0 + 0 * 1 - 0) * (0 + 0 * 1 - 0)
           + (-5 + 0 * 1 - -5) * (-5 + 0 * 1 - -5)) with 0 by ring.
  rewrite sqrt_0. destruct (Req_dec_T 0 0); [|lra].
  eauto.
Qed.

(** In exact arithmetic too a normal can be undefined: [rayCaster] from the
    centre of a unit sphere with direction (0,0,0) returns for no fuel. *)
Lemma rayCaster_zero_direction_diverges :
  ~ exists fuel c,
      rayCaster_fuel fuel (V3 0 0 (-5)) (V3 0 0 0)
        [mkSphere (V3 0 0 (-5)) (Some 1) Material_default] [] 0
      = Some c.
Proof.
  intros (fuel & c & H).
  destruct fuel as [|fuel]; [discriminate|].
  destruct sceneIntersect_zero_direction as (point & mat & Hsi).
  rewrite (rayCaster_fuel_hit fuel _ _ _ _ 0%N _ _ _ ltac:(lia) Hsi) in H.
  rewrite refract_fuel_nan in H by reflexivity. discriminate.
Qed.

(** ** The theorems at concrete inputs *)

Lemma rayCaster_depth_cap_witness :
  (10 < 11)%N /\
  rayCaster_fuel 1 (V3 0 0 0) (V3 0 0 (-1)) main_spheres main_lights 11
  = Some (mkVec3f (flit (3 # 10)) (flit (2 # 10)) (flit (3 # 10))).
Proof.
  split; [reflexivity|].
  apply (rayCaster_depth_cap 0 (V3 0 0 0) (V3 0 0 (-1)) main_spheres main_lights 11%N).
  reflexivity.
Defined.




Lemma tone_map_scaling_witness :
  (1 < Rmax 2 (Rmax 1 (1 / 2)) /\
   tone_map (V3 2 1 (1 / 2))
   = V3 (2 / Rmax 2 (Rmax 1 (1 / 2))) (1 / Rmax 2 (Rmax 1 (1 / 2)))
        (1 / 2 / Rmax 2 (Rmax 1 (1 / 2))))
  /\ (1 / 2 <= 1 /\ 1 / 4 <= 1 /\ 1 <= 1 /\
      tone_map (V3 (1 / 2) (1 / 4) 1) = V3 (1 / 2) (1 / 4) 1).
Proof.
  assert (H1 : 1 < Rmax 2 (Rmax 1 (1 / 2))).
  { apply Rlt_le_trans with 2; [lra | apply Rmax_l]. }
  assert (H2 : 1 / 2 <= 1) by lra.
  assert (H3 : 1 / 4 <= 1) by lra.
  assert (H4 : 1 <= 1) by lra.
  split.
  - split; [exact H1|].
    exact (proj1 tone_map_scaling 2 1 (1 / 2) H1).
  - repeat split; try assumption.
    exact (proj1 (proj2 tone_map_scaling) (1 / 2) (1 / 4) 1 H2 H3 H4).
Defined.


(** Total internal reflection: from index 1 into index 1/2 at grazing
    incidence, [k = 1 - 4 < 0]. *)
Lemma total_reflection_k :
  fltb (refract_last_k (V3 1 0 0) (V3 0 1 0) (Some (1 / 2)) (Some 1)) (flit (0 # 1))
  = true.
Proof.
  assert (Hc : fltb (refract_cosi (V3 1 0 0) (V3 0 1 0)) (flit (0 # 1)) = false).
  { rewrite refract_cosi_real. unfold clampR. xr_eval; reflexivity. }
  unfold refract_last_k, refract_last_args. rewrite Hc.
  unfold refract_k. rewrite refract_cosi_real. unfold clampR. xr_eval; reflexivity.
Qed.

Lemma refract_negative_discriminant_witness :
  refract_fuel 2 (V3 1 0 0) (V3 0 1 0) (Some (1 / 2)) (Some 1)
  = Some (mkVec3f (flit (1 # 1)) (flit (0 # 1)) (flit (0 # 1))).
Proof.
  exact (refract_negative_discriminant 1 0 0 0 1 0 (Some (1 / 2)) (Some 1)
           total_reflection_k 0%nat).
Defined.

Lemma plane_wins_unit_example (sd : R) :
  13 < sd ->
  plane_wins (V3 0 0 0) (V3 0 (-5 / 13) (-12 / 13)) (Some sd) = true.
Proof.
  intros Hsd.
  unfold plane_wins, plane_considered, plane_accepts, plane_point, plane_distance.
  xr_eval; reflexivity.
Qed.

Lemma sphere_behind_plane :
  rayIntersect (mkSphere (V3 0 (-10) (-24)) (Some 1) glass)
               (V3 0 0 0) (V3 0 (-5 / 13) (-12 / 13)) = Some (Some 25).
Proof.
  replace (V3 0 (-10) (-24))
    with (V3 (0 + 0 * 26) (0 + -5 / 13 * 26) (0 + -12 / 13 * 26))
    by (unfold V3; f_equal; f_equal; lra).
  rewrite rayIntersect_on_axis by lra.
  do 2 f_equal. lra.
Qed.

Lemma spheres_loop_behind_plane :
  spheres_loop (V3 0 0 0) (V3 0 (-5 / 13) (-12 / 13))
    [mkSphere (V3 0 (-10) (-24)) (Some 1) glass] rayCaster_locals
  = (Some 25, sphere_hit (V3 0 0 0) (V3 0 (-5 / 13) (-12 / 13))
                (mkSphere (V3 0 (-10) (-24)) (Some 1) glass) (Some 25)).
Proof.
  unfold spheres_loop. cbn [fold_left]. unfold spheres_step.
  rewrite sphere_behind_plane.
  assert (Hlt : fltb (Some 25 : XR) FLT_MAX = true)
    by (unfold FLT_MAX; xr_eval; reflexivity).
  rewrite Hlt. reflexivity.
Qed.

End ExactArithmetic.

(** * Further properties of the code *)

(** ** Loops and lists, for every interpretation of the arithmetic *)

Section LoopFacts.

Context {F : Type} {SF : Scalar F}.

(** Spheres that are not reported below the current best distance leave the
    loop's variables as they are. *)
Lemma fold_spheres_keep (orig dir : Vec3f F) (spheres : list (Sphere F)) (sd : F)
  (st : HitState F) :
  (forall s d, In s spheres -> rayIntersect s orig dir = Some d -> fltb d sd = false) ->
  fold_left (spheres_step orig dir) spheres (sd, st) = (sd, st).
Proof.
  induction spheres as [|s rest IH]; intros Hno; cbn [fold_left]; [reflexivity|].
  destruct (spheres_step_cases orig dir s sd st) as [[Hkeep _] | (d & Hd & Hlt & _)].
  - rewrite Hkeep. apply IH. intros s' d' Hin. apply Hno. now right.
  - rewrite (Hno s d (or_introl eq_refl) Hd) in Hlt. discriminate.
Qed.

(** [rayIntersect] returns [true] only after [t0 < 0] has failed for the
    distance it leaves in [t0]. *)
Lemma rayIntersect_nonneg (s : Sphere F) (orig dir : Vec3f F) (t : F) :
  rayIntersect s orig dir = Some t -> fleb (flit 0) t = true.
Proof.
  unfold rayIntersect.
  destruct (fltb _ _); [discriminate|].
  match goal with |- (if ?c then _ else _) = _ -> _ => destruct c eqn:Hc end;
    [|discriminate].
  intros [= <-]. exact Hc.
Qed.

(** X1.  For every interpretation of the arithmetic: the loop over the
    lights gives the same two intensities as the loop over only the lights
    that are not in shadow. *)
Theorem lights_loop_skips_occluded (spheres : list (Sphere F)) (lights : list (Light F))
  (dir point N : Vec3f F) (mat : Material F) :
  lights_loop spheres lights dir point N mat
  = lights_loop spheres (filter (fun l => negb (in_shadow spheres point N l)) lights)
      dir point N mat.
Proof.
  unfold lights_loop. generalize (flit 0, flit 0) as acc.
  induction lights as [|l rest IH]; intros acc; cbn [fold_left filter]; [reflexivity|].
  destruct (in_shadow spheres point N l) eqn:Hs; cbn [negb fold_left].
  - assert (E : light_step spheres dir point N mat acc l = acc)
      by (unfold light_step; now rewrite Hs).
    rewrite E. apply IH.
  - apply IH.
Qed.

(** X2.  For every interpretation of the arithmetic: the image data has
    three bytes for each pixel of the framebuffer, every byte lies between 0
    and 255, and the three bytes of pixel [n] are at offset [3 * n]. *)
Theorem framebuffer_bytes_shape (framebuffer : list (Vec3f F)) :
  length (framebuffer_bytes framebuffer) = (3 * length framebuffer)%nat /\
  (forall b, In b (framebuffer_bytes framebuffer) -> (0 <= b < 256)%Z) /\
  (forall n c, nth_error framebuffer n = Some c ->
     firstn 3 (skipn (3 * n) (framebuffer_bytes framebuffer)) = pixel_bytes c).
Proof.
  unfold framebuffer_bytes. split; [|split].
  - induction framebuffer as [|c rest IH]; [reflexivity|].
    cbn [flat_map]. rewrite length_app, IH. cbn [pixel_bytes length]. lia.
  - intros b Hin. apply in_flat_map in Hin as (c & _ & Hb).
    unfold pixel_bytes in Hb. cbn [In] in Hb.
    destruct Hb as [<- | [<- | [<- | []]]]; apply Z.mod_pos_bound; lia.
  - induction framebuffer as [|c0 rest IH]; intros n c Hn.
    + destruct n; discriminate.
    + destruct n as [|n].
      * injection Hn as <-. reflexivity.
      * cbn [nth_error] in Hn. cbn [flat_map].
        replace (3 * S n)%nat with (3 + 3 * n)%nat by lia.
        change (pixel_bytes c0 ++ flat_map pixel_bytes rest)
          with (quantize (x (tone_map c0)) :: quantize (y (tone_map c0))
                :: quantize (z (tone_map c0)) :: flat_map pixel_bytes rest).
        cbn [skipn plus]. apply IH. exact Hn.
Qed.

End LoopFacts.

(** ** The image, for every interpretation of the arithmetic *)

Section ImageFacts.

Context {A : Type}.

(** [option_all] returns the results when none is missing. *)
Lemma option_all_Some (l : list (option A)) :
  (forall o, In o l -> o <> None) ->
  exists cs, option_all l = Some cs /\ map Some cs = l.
Proof.
  induction l as [|o rest IH]; intros Hall.
  - exists []. split; reflexivity.
  - destruct o as [a|]; [|exfalso; now apply (Hall None (or_introl eq_refl))].
    destruct IH as (cs & Hcs & Hmap); [intros o Hin; apply Hall; now right|].
    exists (a :: cs). cbn [option_all map]. rewrite Hcs, Hmap. split; reflexivity.
Qed.

(** Row [j] of an image stored row after row starts at index [j * w]. *)
Lemma nth_error_rows (f : nat -> nat -> A) (w : nat) :
  forall (h a i j : nat), (i < w)%nat -> (j < h)%nat ->
    nth_error (flat_map (fun j => map (fun i => f i j) (seq 0 w)) (seq a h)) (i + j * w)
    = Some (f i (a + j)%nat).
Proof.
  induction h as [|h IH]; intros a i j Hi Hj; [lia|].
  cbn [seq flat_map].
  destruct j as [|j].
  - replace (i + 0 * w)%nat with i by lia. replace (a + 0)%nat with a by lia.
    rewrite nth_error_app1 by (rewrite length_map, length_seq; exact Hi).
    rewrite nth_error_map, nth_error_seq.
    destruct (Nat.ltb_spec i w); [reflexivity | lia].
  - rewrite nth_error_app2 by (rewrite length_map, length_seq; cbn; lia).
    rewrite length_map, length_seq.
    replace (i + S j * w - w)%nat with (i + j * w)%nat by (cbn; lia).
    rewrite IH by lia. f_equal. f_equal. lia.
Qed.

Lemma length_rows (f : nat -> nat -> A) (w h a : nat) :
  length (flat_map (fun j => map (fun i => f i j) (seq 0 w)) (seq a h)) = (h * w)%nat.
Proof.
  revert a. induction h as [|h IH]; intros a; [reflexivity|].
  cbn [seq flat_map]. rewrite length_app, length_map, length_seq, IH. cbn. lia.
Qed.

End ImageFacts.

Section RenderFacts.

Context {F : Type} {SF : Scalar F} {TF : Trig F}.

Lemma ppm_header_bytes :
  bytes_of_string ppm_header
  = [80; 54; 10; 49; 48; 50; 52; 32; 55; 54; 56; 10; 50; 53; 53; 10]%Z.
Proof. vm_compute. reflexivity. Qed.

Lemma image_size : (Z.of_nat (height * width) = 786432)%Z.
Proof. rewrite Nat2Z.inj_mul. reflexivity. Qed.

(** X22.  For every interpretation of the arithmetic: when [rayCaster]
    returns for the primary ray of each of the 1024 * 768 pixels, [render]
    writes the 16 bytes of the header [P6\n1024 768\n255\n] followed by the
    bytes of a framebuffer of 786432 colours, in which the colour of pixel
    [(i, j)] is at index [i + j * width]. *)
Theorem render_output_shape (fuel : nat) (spheres : list (Sphere F))
  (lights : list (Light F)) :
  (forall i j, (i < width)%nat -> (j < height)%nat ->
     rayCaster_fuel fuel (mkVec3f (flit 0) (flit 0) (flit 0)) (primary_dir i j)
       spheres lights 0 <> None) ->
  exists framebuffer,
    render_fuel fuel spheres lights
    = Some ([80; 54; 10; 49; 48; 50; 52; 32; 55; 54; 56; 10; 50; 53; 53; 10]%Z
            ++ framebuffer_bytes framebuffer)
    /\ Z.of_nat (length framebuffer) = 786432%Z
    /\ forall i j, (i < width)%nat -> (j < height)%nat ->
         exists c, nth_error framebuffer (i + j * width) = Some c /\
                   rayCaster_fuel fuel (mkVec3f (flit 0) (flit 0) (flit 0))
                     (primary_dir i j) spheres lights 0 = Some c.
Proof.
  intros Hret.
  set (cast := fun i j => rayCaster_fuel fuel (mkVec3f (flit 0) (flit 0) (flit 0))
                            (primary_dir i j) spheres lights 0%N).
  set (rows := flat_map (fun j => map (fun i => cast i j) (seq 0 width)) (seq 0 height)).
  assert (Hrows : forall i j, (i < width)%nat -> (j < height)%nat ->
            nth_error rows (i + j * width) = Some (cast i j)).
  { intros i j Hi Hj. unfold rows.
    rewrite (nth_error_rows cast width height 0 i j Hi Hj). reflexivity. }
  destruct (option_all_Some rows) as (fb & Hfb & Hmap).
  { intros o Hin. unfold rows in Hin.
    apply in_flat_map in Hin as (j & Hj & Hin).
    apply in_map_iff in Hin as (i & <- & Hi).
    apply in_seq in Hj. apply in_seq in Hi.
    apply Hret; lia. }
  assert (Hlen : length fb = (height * width)%nat).
  { rewrite <- (length_map Some fb), Hmap. unfold rows. apply length_rows. }
  exists fb. split; [|split].
  - assert (Hframe : render_framebuffer_fuel fuel spheres lights = Some fb)
      by exact Hfb.
    unfold render_fuel. rewrite Hframe. cbn [option_map]. rewrite ppm_header_bytes. reflexivity.
  - rewrite Hlen. exact image_size.
  - intros i j Hi Hj. specialize (Hrows i j Hi Hj).
    rewrite <- Hmap, nth_error_map in Hrows.
    destruct (nth_error fb (i + j * width)) as [c|]; [|discriminate].
    exists c. split; [reflexivity|]. fold (cast i j). now injection Hrows as <-.
Qed.

End RenderFacts.

(** ** Geometry, shading and output in exact arithmetic *)

Section FurtherExactArithmetic.

Local Open Scope R_scope.

(** *** [reflect] and [refract] *)

Lemma reflect_real a b c d e f :
  reflect (V3 a b c) (V3 d e f)
  = V3 (a - d * 2 * (a * d + b * e + c * f))
       (b - e * 2 * (a * d + b * e + c * f))
       (c - f * 2 * (a * d + b * e + c * f)).
Proof.
  unfold reflect, vsub, vscale, dot, V3. cbn.
  replace (Q2R (2 # 1)) with 2 by (unfold Q2R; simpl; lra). reflexivity.
Qed.

(** X3.  In exact arithmetic, for a normal [N] of unit length: [reflect I N]
    has the opposite component along [N] ([reflect I N * N = - (I * N)]), the
    same length as [I], and reflecting twice gives [I] back. *)
Theorem reflect_mirrors a b c d e f :
  d * d + e * e + f * f = 1 ->
  dot (reflect (V3 a b c) (V3 d e f)) (V3 d e f) = Some (- (a * d + b * e + c * f))
  /\ dot (reflect (V3 a b c) (V3 d e f)) (reflect (V3 a b c) (V3 d e f))
     = dot (V3 a b c) (V3 a b c)
  /\ reflect (reflect (V3 a b c) (V3 d e f)) (V3 d e f) = V3 a b c.
Proof.
  intros Hn. rewrite !reflect_real.
  set (q := a * d + b * e + c * f).
  assert (Hq' : (a - d * 2 * q) * d + (b - e * 2 * q) * e + (c - f * 2 * q) * f = - q).
  { transitivity (q - 2 * q * (d * d + e * e + f * f)); [subst q; ring|].
    rewrite Hn. ring. }
  split; [|split].
  - unfold dot, V3. cbn. f_equal. exact Hq'.
  - unfold dot, V3. cbn. f_equal.
    transitivity (a * a + b * b + c * c - 4 * q * q
                  + 4 * q * q * (d * d + e * e + f * f)); [subst q; ring|].
    rewrite Hn. ring.
  - rewrite Hq'. unfold V3. f_equal; f_equal; ring.
Qed.

Lemma reflect_mirrors_witness :
  reflect (reflect (V3 1 (-1) 0) (V3 0 1 0)) (V3 0 1 0) = V3 1 (-1) 0.
Proof.
  assert (Hn : 0 * 0 + 1 * 1 + 0 * 0 = 1) by lra.
  exact (proj2 (proj2 (reflect_mirrors 1 (-1) 0 0 1 0 Hn))).
Defined.

Lemma cauchy_schwarz3 a b c d e f :
  (a * d + b * e + c * f) * (a * d + b * e + c * f)
  <= (a * a + b * b + c * c) * (d * d + e * e + f * f).
Proof.
  assert (H : (a * a + b * b + c * c) * (d * d + e * e + f * f)
              - (a * d + b * e + c * f) * (a * d + b * e + c * f)
              = (a * e - b * d) * (a * e - b * d) + (a * f - c * d) * (a * f - c * d)
                + (b * f - c * e) * (b * f - c * e)) by ring.
  pose proof (Rle_0_sqr (a * e - b * d)) as H1.
  pose proof (Rle_0_sqr (a * f - c * d)) as H2.
  pose proof (Rle_0_sqr (b * f - c * e)) as H3.
  unfold Rsqr in H1, H2, H3. lra.
Qed.

Lemma unit_dot_bounds a b c d e f :
  a * a + b * b + c * c = 1 -> d * d + e * e + f * f = 1 ->
  -1 <= a * d + b * e + c * f <= 1.
Proof.
  intros HI HN. pose proof (cauchy_schwarz3 a b c d e f) as H.
  rewrite HI, HN in H. nra.
Qed.

Lemma clampR_id q : -1 <= q <= 1 -> clampR q = q.
Proof. intros H. unfold clampR. repeat xr_case; lra. Qed.

(** One activation with [cosi >= 0], away from total reflection. *)
Lemma refract_value_real a b c d e f t i :
  t <> 0 ->
  let ci := - clampR (a * d + b * e + c * f) in
  let eta := i / t in
  let k := 1 - eta * eta * (1 - ci * ci) in
  0 <= k ->
  refract_value (V3 a b c) (V3 d e f) (Some t) (Some i)
  = V3 (a * eta + d * (eta * ci - sqrt k))
       (b * eta + e * (eta * ci - sqrt k))
       (c * eta + f * (eta * ci - sqrt k)).
Proof.
  intros Ht ci eta k Hk. unfold refract_value, refract_k.
  rewrite refract_cosi_real. fold ci. cbn.
  destruct (Req_dec_T t 0); [contradiction|]. cbn.
  rewrite Q2R_0, Q2R_1. fold eta. fold k.
  destruct (Rlt_dec k 0); [lra|]. cbn.
  destruct (Rlt_dec k 0); [lra|]. reflexivity.
Qed.

Lemma snell_one_activation a b c d e f t i :
  a * a + b * b + c * c = 1 -> d * d + e * e + f * f = 1 -> t <> 0 ->
  a * d + b * e + c * f <= 0 ->
  let q := a * d + b * e + c * f in
  let eta := i / t in
  let k := 1 - eta * eta * (1 - q * q) in
  0 <= k ->
  exists rx ry rz,
    refract_value (V3 a b c) (V3 d e f) (Some t) (Some i) = V3 rx ry rz /\
    rx * rx + ry * ry + rz * rz = 1 /\
    rx * d + ry * e + rz * f = - sqrt k /\
    rx - (rx * d + ry * e + rz * f) * d = eta * (a - q * d) /\
    ry - (rx * d + ry * e + rz * f) * e = eta * (b - q * e) /\
    rz - (rx * d + ry * e + rz * f) * f = eta * (c - q * f).
Proof.
  intros HI HN Ht Hq q eta k Hk.
  pose proof (unit_dot_bounds a b c d e f HI HN) as Hb. fold q in Hb, Hq.
  assert (Hci : - clampR q = - q) by (rewrite clampR_id; lra).
  pose proof (refract_value_real a b c d e f t i Ht) as Hv. cbv zeta in Hv.
  fold q in Hv. rewrite Hci in Hv.
  replace (- q * - q) with (q * q) in Hv by ring. fold eta in Hv. fold k in Hv.
  specialize (Hv Hk).
  set (s := sqrt k) in *.
  assert (Hs : s * s = k) by (apply sqrt_sqrt; exact Hk).
  exists (a * eta + d * (eta * - q - s)), (b * eta + e * (eta * - q - s)),
         (c * eta + f * (eta * - q - s)).
  assert (Hdot : (a * eta + d * (eta * - q - s)) * d + (b * eta + e * (eta * - q - s)) * e
                 + (c * eta + f * (eta * - q - s)) * f = - s).
  { transitivity (eta * q + (eta * - q - s) * (d * d + e * e + f * f));
      [subst q; ring | rewrite HN; ring]. }
  split; [exact Hv|]. split; [|split; [exact Hdot|]].
  - transitivity (eta * eta * (a * a + b * b + c * c)
                  + 2 * eta * (eta * - q - s) * q
                  + (eta * - q - s) * (eta * - q - s) * (d * d + e * e + f * f));
      [subst q; ring|].
    rewrite HI, HN.
    transitivity (eta * eta * (1 - q * q) + s * s); [ring|].
    rewrite Hs. subst k. ring.
  - rewrite Hdot. repeat split; ring.
Qed.

(** X4.  In exact arithmetic, for [I] and [N] of unit length, indices that
    are not zero and no total reflection ([k >= 0]): [refract] returns a
    vector of unit length that continues to the far side of the surface (its
    component along [N] is [sqrt k] with the sign of [I * N]), and whose part
    tangent to the surface is [eta] times that of [I], with [eta] the ratio
    of the indices, [eta_i / eta_t] from outside and [eta_t / eta_i] from
    inside: Snell's law. *)
Theorem refract_snell a b c d e f t i fuel :
  a * a + b * b + c * c = 1 -> d * d + e * e + f * f = 1 -> t <> 0 -> i <> 0 ->
  let q := a * d + b * e + c * f in
  let eta := if Rlt_dec 0 q then t / i else i / t in
  let k := 1 - eta * eta * (1 - q * q) in
  0 <= k ->
  exists rx ry rz,
    refract_fuel (S (S fuel)) (V3 a b c) (V3 d e f) (Some t) (Some i) = Some (V3 rx ry rz) /\
    rx * rx + ry * ry + rz * rz = 1 /\
    rx * d + ry * e + rz * f = (if Rlt_dec 0 q then sqrt k else - sqrt k) /\
    rx - (rx * d + ry * e + rz * f) * d = eta * (a - q * d) /\
    ry - (rx * d + ry * e + rz * f) * e = eta * (b - q * e) /\
    rz - (rx * d + ry * e + rz * f) * f = eta * (c - q * f).
Proof.
  intros HI HN Ht Hi q eta k Hk. rewrite refract_fuel_real. fold q.
  subst k eta. destruct (Rlt_dec 0 q) as [Hq|Hq].
  - change (vneg (V3 d e f)) with (V3 (- d) (- e) (- f)).
    assert (HN' : - d * - d + - e * - e + - f * - f = 1) by (rewrite <- HN; ring).
    assert (Hq' : a * - d + b * - e + c * - f <= 0) by (subst q; lra).
    pose proof (snell_one_activation a b c (- d) (- e) (- f) i t HI HN' Hi Hq') as H.
    cbv zeta in H.
    replace (a * - d + b * - e + c * - f) with (- q) in H by (subst q; ring).
    replace (- q * - q) with (q * q) in H by ring.
    destruct (H Hk) as (rx & ry & rz & Hv & Hu & Hd & Hx & Hy & Hz).
    exists rx, ry, rz. split; [now rewrite Hv|]. split; [exact Hu|].
    assert (Hd' : rx * d + ry * e + rz * f = sqrt (1 - t / i * (t / i) * (1 - q * q))) by lra.
    split; [exact Hd'|]. rewrite Hd'.
    replace (rx * - d + ry * - e + rz * - f) with (- (rx * d + ry * e + rz * f)) in Hx, Hy, Hz by ring.
    rewrite Hd' in Hx, Hy, Hz. repeat split; lra.
  - assert (Hq' : a * d + b * e + c * f <= 0) by (subst q; lra).
    pose proof (snell_one_activation a b c d e f t i HI HN Ht Hq') as H.
    cbv zeta in H. fold q in H.
    destruct (H Hk) as (rx & ry & rz & Hv & Hu & Hd & Hx & Hy & Hz).
    exists rx, ry, rz. split; [now rewrite Hv|]. repeat split; assumption.
Qed.

Lemma refract_snell_witness :
  exists rx ry rz,
    refract_fuel 2 (V3 0 (-1) 0) (V3 0 1 0) (Some 2) (Some 1) = Some (V3 rx ry rz) /\
    rx * rx + ry * ry + rz * rz = 1.
Proof.
  assert (HI : 0 * 0 + -1 * -1 + 0 * 0 = 1) by lra.
  assert (HN : 0 * 0 + 1 * 1 + 0 * 0 = 1) by lra.
  assert (Ht : 2 <> 0) by lra.
  assert (Hi : 1 <> 0) by lra.
  pose proof (refract_snell 0 (-1) 0 0 1 0 2 1 0%nat HI HN Ht Hi) as H.
  cbv zeta in H.
  destruct (Rlt_dec 0 (0 * 0 + -1 * 1 + 0 * 0)) as [Hq|Hq]; [lra|].
  assert (Hk : 0 <= 1 - 1 / 2 * (1 / 2) * (1 - (0 * 0 + -1 * 1 + 0 * 0) * (0 * 0 + -1 * 1 + 0 * 0))) by lra.
  destruct (H Hk) as (rx & ry & rz & Hv & Hu & _).
  exists rx, ry, rz. split; assumption.
Defined.

(** *** [Sphere::rayIntersect] *)


Lemma rayIntersect_at_3 :
  rayIntersect (mkSphere (V3 0 0 (-3)) (Some 1) Material_default) (V3 0 0 0) (V3 0 0 (-1))
  = Some (Some 2).
Proof.
  replace 2 with (3 - 1) by lra.
  pose proof (rayIntersect_on_axis 0 0 0 0 0 (-1) 3 1 Material_default) as E.
  replace (0 + 0 * 3) with 0 in E by lra. replace (0 + -1 * 3) with (-3) in E by lra.
  apply E; lra.
Qed.

(** A sphere behind the camera, used as an example. *)
Lemma rayIntersect_at_back :
  rayIntersect (mkSphere (V3 0 0 3) (Some 1) Material_default) (V3 0 0 0) (V3 0 0 (-1))
  = None.
Proof.
  rewrite rayIntersect_real.
  match goal with |- context [sqrt ?e] => replace e with 1 by lra end.
  rewrite sqrt_1.
  repeat match goal with
         | |- context [Rlt_dec ?u ?v] => destruct (Rlt_dec u v); try lra
         | |- context [Rle_dec ?u ?v] => destruct (Rle_dec u v); try lra
         end; reflexivity.
Qed.


(** *** [sceneIntersect] *)

Lemma xltb_false_real (u v : R) : fltb (Some u) (Some v) = false -> v <= u.
Proof. cbn. destruct (Rlt_dec u v); [discriminate | lra]. Qed.

Lemma xltb_real (u v : R) : u < v -> fltb (Some u) (Some v) = true.
Proof. intros H. cbn. destruct (Rlt_dec u v); [reflexivity | lra]. Qed.

Lemma xleb_true_real (u : R) (t : XR) : fleb (Some u) t = true -> exists v, t = Some v /\ u <= v.
Proof.
  destruct t as [v|]; cbn; [|discriminate].
  destruct (Rle_dec u v); [|discriminate]. intros _. now exists v.
Qed.

(** The best distance is a number, never above the one the loop started
    from, and never above a distance reported for a sphere of the list. *)
Lemma fold_spheres_nearest (orig dir : Vec3f XR) (spheres : list (Sphere XR)) :
  forall (d0 : R) (st : HitState XR),
  exists d, fst (fold_left (spheres_step orig dir) spheres ((Some d0 : XR), st)) = Some d /\
            d <= d0 /\
            forall s t, In s spheres -> rayIntersect s orig dir = Some (Some t) -> d <= t.
Proof.
  induction spheres as [|s rest IH]; intros d0 st; cbn [fold_left].
  - exists d0. split; [reflexivity|]. split; [lra|]. intros s t [].
  - destruct (spheres_step_cases orig dir s (Some d0) st)
      as [[Hkeep Hnot] | (d & Hd & Hlt & Hw)].
    + rewrite Hkeep. destruct (IH d0 st) as (d & Hfst & Hle & Hall).
      exists d. split; [exact Hfst|]. split; [exact Hle|].
      intros s' t [<- | Hin] Ht.
      * pose proof (xltb_false_real _ _ (Hnot _ Ht)). lra.
      * now apply (Hall s').
    + rewrite Hw.
      destruct (xltb_true _ _ Hlt) as (u & v & -> & [= <-] & Huv).
      destruct (IH u (sphere_hit orig dir s (Some u))) as (d & Hfst & Hle & Hall).
      exists d. split; [exact Hfst|]. split; [lra|].
      intros s' t [<- | Hin] Ht.
      * rewrite Hd in Ht. injection Ht as <-. exact Hle.
      * now apply (Hall s').
Qed.

(** X9.  In exact arithmetic: after the loop over the spheres,
    [spheres_dist] is a number that is at most every distance that
    [rayIntersect] reports for a sphere of the list. *)
Theorem spheres_loop_nearest (orig dir : Vec3f XR) (spheres : list (Sphere XR))
  (st : HitState XR) (s : Sphere XR) (t : R) :
  In s spheres -> rayIntersect s orig dir = Some (Some t) ->
  exists d, fst (spheres_loop orig dir spheres st) = Some d /\ d <= t /\
    forall s' t', In s' spheres -> rayIntersect s' orig dir = Some (Some t') -> d <= t'.
Proof.
  intros Hin Ht. unfold spheres_loop.
  destruct (fold_spheres_nearest orig dir spheres
              (Q2R (340282346638528859811704183484516925440 # 1)) st)
    as (d & Hfst & _ & Hall).
  exists d. split; [exact Hfst|]. split; [exact (Hall s t Hin Ht) | exact Hall].
Qed.

Lemma spheres_loop_nearest_witness :
  exists d,
    fst (spheres_loop (V3 0 0 0) (V3 0 0 (-1))
           [mkSphere (V3 0 0 (-3)) (Some 1) Material_default] rayCaster_locals) = Some d
    /\ d <= 2.
Proof.
  destruct (spheres_loop_nearest (V3 0 0 0) (V3 0 0 (-1))
              [mkSphere (V3 0 0 (-3)) (Some 1) Material_default] rayCaster_locals
              (mkSphere (V3 0 0 (-3)) (Some 1) Material_default) 2
              (or_introl eq_refl) rayIntersect_at_3) as (d & Hd & Hle & _).
  exists d. split; assumption.
Defined.

(** The sphere after [pre] takes the lead when it is reported strictly nearer
    than everything before it. *)
Lemma fold_spheres_lead (orig dir : Vec3f XR) (s : Sphere XR) (t : R)
  (pre : list (Sphere XR)) :
  rayIntersect s orig dir = Some (Some t) ->
  (forall s' u, In s' pre -> rayIntersect s' orig dir = Some (Some u) -> t < u) ->
  forall (d0 : R) (st : HitState XR), t < d0 ->
    spheres_step orig dir (fold_left (spheres_step orig dir) pre ((Some d0 : XR), st)) s
    = (Some t, sphere_hit orig dir s (Some t)).
Proof.
  intros Ht. induction pre as [|s1 rest IH]; intros Hpre d0 st Hlt; cbn [fold_left].
  - unfold spheres_step. rewrite Ht. cbv beta iota.
    replace (fltb (Some t : XR) (Some d0 : XR)) with true by (symmetry; apply xltb_real; exact Hlt).
    reflexivity.
  - destruct (spheres_step_cases orig dir s1 (Some d0) st)
      as [[Hkeep _] | (d & Hd & Hlt1 & Hw)].
    + rewrite Hkeep. apply IH; [|exact Hlt]. intros s' u Hin. apply Hpre. now right.
    + rewrite Hw. destruct (xltb_true _ _ Hlt1) as (u & v & -> & [= <-] & Huv).
      apply IH.
      * intros s' u' Hin. apply Hpre. now right.
      * apply (Hpre s1 u (or_introl eq_refl) Hd).
Qed.

(** X10.  In exact arithmetic: a sphere reported at a distance [t] below
    [FLT_MAX], strictly nearer than every sphere before it in the list and at
    least as near as every sphere after it, is the one whose hit point,
    normal and material the loop leaves in the output parameters: among
    spheres at the same distance the first of the list wins. *)
Theorem spheres_loop_winner (orig dir : Vec3f XR) (pre post : list (Sphere XR))
  (s : Sphere XR) (t : R) (st : HitState XR) :
  rayIntersect s orig dir = Some (Some t) ->
  t < 340282346638528859811704183484516925440 ->
  (forall s' u, In s' pre -> rayIntersect s' orig dir = Some (Some u) -> t < u) ->
  (forall s' u, In s' post -> rayIntersect s' orig dir = Some (Some u) -> t <= u) ->
  spheres_loop orig dir (pre ++ s :: post) st = (Some t, sphere_hit orig dir s (Some t)).
Proof.
  intros Ht Hmax Hpre Hpost. unfold spheres_loop.
  rewrite fold_left_app. cbn [fold_left].
  change (FLT_MAX : XR) with (Some (Q2R (340282346638528859811704183484516925440 # 1)) : XR).
  rewrite (fold_spheres_lead orig dir s t pre Ht Hpre).
  - apply fold_spheres_keep. intros s' d Hin Hd.
    destruct d as [u|]; [|reflexivity].
    pose proof (Hpost s' u Hin Hd) as Hle. cbn.
    destruct (Rlt_dec u t); [lra | reflexivity].
  - unfold Q2R. simpl. lra.
Qed.

(** A sphere of radius [r] centred [D] down the ray from the origin along
    (0, 0, -1). *)
Lemma rayIntersect_down_axis (D r : R) (m : Material XR) :
  0 < r -> r < D ->
  rayIntersect (mkSphere (V3 0 0 (- D)) (Some r) m) (V3 0 0 0) (V3 0 0 (-1))
  = Some (Some (D - r)).
Proof.
  intros Hr HD.
  pose proof (rayIntersect_on_axis 0 0 0 0 0 (-1) D r m) as E.
  replace (0 + 0 * D) with 0 in E by lra. replace (0 + -1 * D) with (- D) in E by lra.
  apply E; lra.
Qed.

(** Three spheres down the ray: one met at distance 9, then two met at the
    same distance 4.  The first of the two wins. *)
Lemma spheres_loop_winner_witness :
  spheres_loop (V3 0 0 0) (V3 0 0 (-1))
    ([mkSphere (V3 0 0 (-10)) (Some 1) glass]
     ++ mkSphere (V3 0 0 (-5)) (Some 1) rubber
     :: [mkSphere (V3 0 0 (-6)) (Some 2) mirror]) rayCaster_locals
  = (Some (5 - 1), sphere_hit (V3 0 0 0) (V3 0 0 (-1))
                     (mkSphere (V3 0 0 (-5)) (Some 1) rubber) (Some (5 - 1))).
Proof.
  assert (E9 : rayIntersect (mkSphere (V3 0 0 (-10)) (Some 1) glass)
                 (V3 0 0 0) (V3 0 0 (-1)) = Some (Some (10 - 1)))
    by (apply (rayIntersect_down_axis 10 1); lra).
  assert (E4 : rayIntersect (mkSphere (V3 0 0 (-5)) (Some 1) rubber)
                 (V3 0 0 0) (V3 0 0 (-1)) = Some (Some (5 - 1)))
    by (apply (rayIntersect_down_axis 5 1); lra).
  assert (E4' : rayIntersect (mkSphere (V3 0 0 (-6)) (Some 2) mirror)
                  (V3 0 0 0) (V3 0 0 (-1)) = Some (Some (6 - 2)))
    by (apply (rayIntersect_down_axis 6 2); lra).
  apply spheres_loop_winner.
  - exact E4.
  - lra.
  - intros s' u [<- | []] H. rewrite E9 in H. injection H as <-. lra.
  - intros s' u [<- | []] H. rewrite E4' in H. injection H as <-. lra.
Defined.

(** X11.  In exact arithmetic: when [sceneIntersect] returns [true], the hit
    point is [orig + dir * t] for a number [0 <= t < 1000]; and either the
    normal is [(0, 1, 0)] and [t] is the distance of the plane, or [t] is
    the distance reported for a sphere of the list, whose material and
    normalized radial vector are the ones returned. *)
Theorem sceneIntersect_hit_on_ray (orig dir : Vec3f XR) (spheres : list (Sphere XR))
  (st : HitState XR) (hit N : Vec3f XR) (mat : Material XR) :
  sceneIntersect orig dir spheres st = (true, (hit, N, mat)) ->
  exists t, 0 <= t < 1000 /\ hit = vadd orig (vscale dir (Some t)) /\
    ((N = mkVec3f (flit 0) (flit 1) (flit 0) /\ plane_distance orig dir = Some t) \/
     (exists s, In s spheres /\ rayIntersect s orig dir = Some (Some t) /\
                N = normalize (vsub hit (center s)) /\ mat = material s)).
Proof.
  rewrite sceneIntersect_eq.
  destruct (plane_wins orig dir (fst (spheres_loop orig dir spheres st))) eqn:Hw.
  - intros H. apply pair_equal_spec in H as [Hlt Hst].
    apply pair_equal_spec in Hst as [Hst _]. apply pair_equal_spec in Hst as [<- <-].
    unfold plane_wins in Hw. apply andb_prop in Hw as [_ Ha].
    pose proof Ha as Ha'. unfold plane_accepts in Ha'.
    apply andb_prop in Ha' as [_ Hsd].
    destruct (plane_accepts_real _ _ _ Ha) as (ox & oy & oz & dx & dy & dz & t & -> & -> & Hd & Ht & _).
    exists t. unfold plane_point. rewrite Hd in *.
    unfold fmin in Hlt. rewrite Hsd in Hlt.
    destruct (xltb_true _ _ Hlt) as (u & v & [= <-] & [= <-] & Huv).
    replace (Q2R (1000 # 1)) with 1000 in Huv by (unfold Q2R; simpl; lra).
    split; [lra|]. split; [reflexivity|]. left. split; reflexivity.
  - intros H. apply pair_equal_spec in H as [Hlt Hst].
    destruct (fold_spheres_nearest orig dir spheres
                (Q2R (340282346638528859811704183484516925440 # 1)) st)
      as (d & Hfst & Hle & _).
    change (fst (spheres_loop orig dir spheres st) = Some d) in Hfst.
    destruct (spheres_loop_outcome orig dir spheres st) as [Hsame | (s & Hin & Hs & Hsnd)].
    + rewrite Hsame in Hlt. cbn [fst] in Hlt.
      rewrite FLT_MAX_not_below_1000 in Hlt. discriminate.
    + rewrite Hfst in Hs, Hsnd, Hlt. rewrite Hst in Hsnd.
      destruct (xleb_true_real _ _ (rayIntersect_nonneg _ _ _ _ Hs)) as (v & [= <-] & Hv).
      rewrite Q2R_0 in Hv.
      exists d. unfold sphere_hit in Hsnd. injection Hsnd as -> -> ->.
      split.
      * split; [exact Hv|]. revert Hlt. unfold fmin. cbn.
        destruct (Rlt_dec _ d); [lra|].
        intros Hlt. destruct (xltb_true _ _ Hlt) as (u & v & [= <-] & [= <-] & Huv).
        unfold Q2R in Huv. simpl in Huv. lra.
      * split; [reflexivity|]. right. exists s. repeat split; [exact Hin | exact Hs].
Qed.

(** A ray from the origin that meets the floor 13 units away, in a scene
    without spheres. *)
Lemma sceneIntersect_floor_example :
  sceneIntersect (V3 0 0 0) (V3 0 (-5 / 13) (-12 / 13)) [] rayCaster_locals
  = (true, (plane_point (V3 0 0 0) (V3 0 (-5 / 13) (-12 / 13)),
            mkVec3f (flit 0) (flit 1) (flit 0),
            set_diffuse_color Material_default
              (checker_color (plane_point (V3 0 0 0) (V3 0 (-5 / 13) (-12 / 13)))))).
Proof.
  rewrite sceneIntersect_eq. unfold spheres_loop. cbn [fold_left fst snd].
  assert (Hw : plane_wins (V3 0 0 0) (V3 0 (-5 / 13) (-12 / 13)) (FLT_MAX : XR) = true).
  { unfold plane_wins, plane_considered, plane_accepts, plane_point, plane_distance, FLT_MAX.
    xr_eval; reflexivity. }
  rewrite Hw.
  assert (Hlt : fltb (fmin (FLT_MAX : XR) (plane_distance (V3 0 0 0) (V3 0 (-5 / 13) (-12 / 13))))
                     (flit (1000 # 1)) = true).
  { unfold fmin, plane_distance, FLT_MAX. xr_eval; reflexivity. }
  rewrite Hlt. reflexivity.
Qed.

Lemma sceneIntersect_hit_on_ray_witness :
  exists t, 0 <= t < 1000 /\
    plane_point (V3 0 0 0) (V3 0 (-5 / 13) (-12 / 13))
    = vadd (V3 0 0 0) (vscale (V3 0 (-5 / 13) (-12 / 13)) (Some t)).
Proof.
  destruct (sceneIntersect_hit_on_ray _ _ _ _ _ _ _ sceneIntersect_floor_example)
    as (t & Ht & Hhit & _).
  exists t. split; assumption.
Defined.

(** X12.  In exact arithmetic: when the plane branch is taken, the hit point
    has [y = -5], the distance is positive, and the ray goes down from above
    the plane or up from below it. *)
Theorem plane_hit_height ox oy oz dx dy dz (sd : XR) :
  plane_wins (V3 ox oy oz) (V3 dx dy dz) sd = true ->
  y (plane_point (V3 ox oy oz) (V3 dx dy dz)) = Some (-5) /\
  exists t, plane_distance (V3 ox oy oz) (V3 dx dy dz) = Some t /\ 0 < t /\
            (0 < dy -> oy < -5) /\ (dy < 0 -> -5 < oy).
Proof.
  intros Hw. unfold plane_wins in Hw. apply andb_prop in Hw as [Hc Ha].
  unfold plane_considered in Hc.
  destruct (xltb_true _ _ Hc) as (u & v & [= <-] & Hv & Huv).
  assert (Hdy : dy <> 0).
  { cbn in Hv. injection Hv as <-. unfold Q2R in Huv. simpl in Huv.
    intros ->. rewrite Rabs_R0 in Huv. lra. }
  unfold plane_accepts in Ha.
  repeat (apply andb_prop in Ha as [Ha _]).
  assert (Hd : plane_distance (V3 ox oy oz) (V3 dx dy dz) = Some (- (oy + 5) / dy)).
  { unfold plane_distance, V3. cbn. destruct (Req_dec_T dy 0); [contradiction|].
    replace (Q2R 5) with 5 by (unfold Q2R; simpl; lra). reflexivity. }
  rewrite Hd in Ha. cbn in Ha. rewrite Q2R_0 in Ha.
  destruct (Rlt_dec 0 (- (oy + 5) / dy)) as [Ht|]; [|discriminate].
  split.
  - unfold plane_point. rewrite Hd. unfold V3, vadd, vscale. cbn. f_equal. field. exact Hdy.
  - exists (- (oy + 5) / dy). split; [exact Hd|]. split; [exact Ht|].
    split; intros Hs.
    + assert (H : 0 < - (oy + 5) / dy * dy) by (apply Rmult_lt_0_compat; lra).
      replace (- (oy + 5) / dy * dy) with (- (oy + 5)) in H by (field; exact Hdy). lra.
    + assert (H : 0 < - (oy + 5) / dy * - dy) by (apply Rmult_lt_0_compat; lra).
      replace (- (oy + 5) / dy * - dy) with (oy + 5) in H by (field; exact Hdy). lra.
Qed.

Lemma plane_hit_height_witness :
  y (plane_point (V3 0 0 0) (V3 0 (-5 / 13) (-12 / 13))) = Some (-5).
Proof.
  refine (proj1 (plane_hit_height 0 0 0 0 (-5 / 13) (-12 / 13) (Some 14) _)).
  unfold plane_wins, plane_considered, plane_accepts, plane_point, plane_distance.
  xr_eval; reflexivity.
Defined.

Lemma dark_light_differ :
  (mkVec3f (flit (3 # 10)) (flit (3 # 10)) (flit (3 # 10)) : Vec3f XR)
  <> mkVec3f (flit (1 # 10)) (flit (1 # 10)) (flit (1 # 10)).
Proof. cbn. intros [= H]. unfold Q2R in H. simpl in H. lra. Qed.

Lemma odd_succ_flip (n : Z) : Z.odd (n + 1) = negb (Z.odd n).
Proof. rewrite Z.add_1_r, Z.odd_succ, <- Z.negb_odd. reflexivity. Qed.

(** X13.  In exact arithmetic, inside the tile region: moving the hit point
    by 2 along [x], or by 2 along [z], changes the colour of the
    checkerboard; moving it by 2 along both gives the same colour; the
    height [y] plays no role. *)
Theorem checker_color_alternates hx hy hz hy' :
  -10 < hx < 8 -> -30 < hz < -12 ->
  checker_color (V3 (hx + 2) hy' hz) <> checker_color (V3 hx hy hz) /\
  checker_color (V3 hx hy' (hz + 2)) <> checker_color (V3 hx hy hz) /\
  checker_color (V3 (hx + 2) hy' (hz + 2)) = checker_color (V3 hx hy hz).
Proof.
  intros Hx Hz.
  rewrite !checker_color_real by lra.
  replace ((hx + 2) / 2 + 1000) with (hx / 2 + 1000 + IZR 1) by (simpl; lra).
  replace ((hz + 2) / 2) with (hz / 2 + IZR 1) by (simpl; lra).
  rewrite Zfloor_addz, Zceil_addz.
  set (a := Zfloor (hx / 2 + 1000)). set (c := Zceil (hz / 2)).
  replace (a + 1 + c)%Z with (a + c + 1)%Z by lia.
  replace (a + (c + 1))%Z with (a + c + 1)%Z by lia.
  replace (a + 1 + (c + 1))%Z with (a + c + 1 + 1)%Z by lia.
  rewrite !odd_succ_flip.
  pose proof dark_light_differ as Hd.
  destruct (Z.odd (a + c)); cbn [negb]; repeat split; try reflexivity;
    try exact Hd; intros E; apply Hd; symmetry; exact E.
Qed.

Lemma checker_color_alternates_witness :
  checker_color (V3 (0 + 2) 0 (-20)) <> checker_color (V3 0 (-5) (-20)).
Proof.
  refine (proj1 (checker_color_alternates 0 (-5) (-20) 0 _ _)); lra.
Defined.

(** *** [rayCaster] *)

Lemma fmax0_dot_unit (a b : Vec3f XR) :
  ray_ok a -> ray_ok b ->
  exists v, fmax (flit 0) (dot a b) = Some v /\ 0 <= v <= 1.
Proof.
  intros Ha Hb.
  destruct (dot_None_cases a b) as [(q & Hq & (a1 & a2 & a3 & ->) & (b1 & b2 & b3 & ->)) | [Hn _]].
  - assert (Hua : a1 * a1 + a2 * a2 + a3 * a3 = 1).
    { destruct Ha as [Ha | Ha]; [|exfalso; apply Ha; now exists a1, a2, a3].
      unfold V3, dot in Ha. cbn in Ha. now injection Ha. }
    assert (Hub : b1 * b1 + b2 * b2 + b3 * b3 = 1).
    { destruct Hb as [Hb | Hb]; [|exfalso; apply Hb; now exists b1, b2, b3].
      unfold V3, dot in Hb. cbn in Hb. now injection Hb. }
    assert (Hq2 : q = a1 * b1 + a2 * b2 + a3 * b3).
    { unfold V3, dot in Hq. cbn in Hq. now injection Hq. }
    pose proof (unit_dot_bounds a1 a2 a3 b1 b2 b3 Hua Hub) as Hb1. rewrite <- Hq2 in Hb1.
    rewrite Hq. change (flit 0 : XR) with (Some (Q2R 0)). rewrite Q2R_0, fmax_real.
    exists (Rmax 0 q). split; [reflexivity|].
    unfold Rmax. destruct (Rle_dec 0 q); lra.
  - rewrite Hn. exists 0. cbn. rewrite Q2R_0. split; [reflexivity | lra].
Qed.

Lemma fold_lights_diffuse_bounds (spheres : list (Sphere XR)) (dir point N : Vec3f XR)
  (mat : Material XR) (b : R) (lights : list (Light XR)) :
  ray_ok N ->
  (forall l, In l lights -> exists i, intensity l = Some i /\ 0 <= i <= b) ->
  forall (d0 : R) (s0 : XR),
  exists d, fst (fold_left (light_step spheres dir point N mat) lights ((Some d0 : XR), s0))
            = Some d /\
            d0 <= d <= d0 + b * INR (length lights).
Proof.
  intros HN. induction lights as [|l rest IH]; intros Hint d0 s0.
  - exists d0. cbn. split; [reflexivity | lra].
  - destruct (Hint l (or_introl eq_refl)) as (i & Hi & Hib).
    assert (Hrest : forall l2, In l2 rest -> exists i2, intensity l2 = Some i2 /\ 0 <= i2 <= b)
      by (intros l2 Hin; apply Hint; now right).
    assert (Hlen : INR (length (l :: rest)) = INR (length rest) + 1)
      by (cbn [length]; rewrite S_INR; reflexivity).
    rewrite Hlen.
    assert (Hb0 : 0 <= b) by lra.
    assert (Hn0 : 0 <= INR (length rest)) by apply pos_INR.
    cbn [fold_left]. unfold light_step at 2.
    destruct (in_shadow spheres point N l).
    + destruct (IH Hrest d0 s0) as (d & Hd & Hbd). exists d. split; [exact Hd | nra].
    + cbn [fst snd].
      destruct (fmax0_dot_unit (light_dir point l) N (normalize_ok _) HN) as (v & Hv & Hvb).
      assert (Hterm : fadd (Some d0 : XR) (diffuse_term point N l) = Some (d0 + i * v)).
      { unfold diffuse_term. rewrite Hi, Hv. reflexivity. }
      rewrite Hterm.
      destruct (IH Hrest (d0 + i * v) (fadd s0 (specular_term dir point N mat l)))
        as (d & Hd & Hbd).
      exists d. split; [exact Hd|]. nra.
Qed.

(** X14.  In exact arithmetic: for a normal of unit length (or one that is
    not a vector of numbers) and lights whose intensities are numbers between
    0 and [b], the diffuse intensity after the loop is a number between 0
    and [b] times the number of lights, whatever the spheres, the hit point
    and the ray are. *)
Theorem diffuse_intensity_bounds (spheres : list (Sphere XR)) (lights : list (Light XR))
  (dir point N : Vec3f XR) (mat : Material XR) (b : R) :
  ray_ok N ->
  (forall l, In l lights -> exists i, intensity l = Some i /\ 0 <= i <= b) ->
  exists d, fst (lights_loop spheres lights dir point N mat) = Some d /\
            0 <= d <= b * INR (length lights).
Proof.
  intros HN Hint. unfold lights_loop.
  destruct (fold_lights_diffuse_bounds spheres dir point N mat b lights HN Hint 0 (Some 0))
    as (d & Hd & Hb).
  exists d. split; [|lra].
  change (flit 0 : XR) with (Some (Q2R 0)). rewrite Q2R_0. exact Hd.
Qed.

Lemma diffuse_intensity_bounds_witness :
  exists d,
    fst (lights_loop main_spheres main_lights (V3 0 0 (-1)) (V3 0 0 0)
           (V3 0 0 1) Material_default) = Some d /\
    0 <= d <= 3 * INR (length (main_lights (F := XR))).
Proof.
  apply diffuse_intensity_bounds.
  - left. unfold V3, dot. cbn. f_equal. lra.
  - intros l Hin. cbn in Hin.
    repeat (destruct Hin as [<- | Hin]; [eexists; split; [reflexivity|]; unfold Q2R; simpl; lra |]).
    destruct Hin.
Defined.

(** X15.  In exact arithmetic: for a material with albedo [(1, 0, 0, 0)], as
    the default material has, and reflected and refracted colours that are
    vectors of numbers, the colour of line 128 is the diffuse colour times
    the diffuse intensity. *)
Theorem shade_diffuse_only n e r g b di si (reflectColor refractColor : Vec3f XR) :
  finite3 reflectColor -> finite3 refractColor ->
  shade (mkMaterial n (mkVec4f (flit 1) (flit 0) (flit 0) (flit 0)) (V3 r g b) e)
        (Some di, Some si) reflectColor refractColor
  = V3 (r * di) (g * di) (b * di).
Proof.
  intros (a1 & a2 & a3 & ->) (b1 & b2 & b3 & ->).
  unfold shade, V3, vadd, vscale. cbn. rewrite Q2R_0, Q2R_1.
  f_equal; f_equal; ring.
Qed.

Lemma shade_diffuse_only_witness :
  shade (mkMaterial (Some 1) (mkVec4f (flit 1) (flit 0) (flit 0) (flit 0)) (V3 1 1 1) (Some 1))
        (Some 2, Some 3) (V3 4 5 6) (V3 7 8 9)
  = V3 (1 * 2) (1 * 2) (1 * 2).
Proof.
  apply shade_diffuse_only; [now exists 4, 5, 6 | now exists 7, 8, 9].
Defined.

(** X16.  In exact arithmetic: the origin of a secondary ray computed from
    direction [d], [point] and [N] is displaced from [point] by
    [1e-3] times [N] in magnitude, towards the side [d] points to:
    [(origin - point) * d >= 0]. *)
Theorem offset_orig_side dx dy dz px py pz nx ny nz :
  exists ox oy oz,
    offset_orig (V3 dx dy dz) (V3 px py pz) (V3 nx ny nz) = V3 ox oy oz /\
    0 <= (ox - px) * dx + (oy - py) * dy + (oz - pz) * dz /\
    (ox - px) * (ox - px) + (oy - py) * (oy - py) + (oz - pz) * (oz - pz)
    = (nx * nx + ny * ny + nz * nz) / 1000000.
Proof.
  unfold offset_orig, V3, dot, vadd, vsub, vscale. cbn. rewrite Q2R_0.
  replace (Q2R (1 # 1000)) with (1 / 1000) by (unfold Q2R; simpl; lra).
  destruct (Rlt_dec (dx * nx + dy * ny + dz * nz) 0) as [H|H];
    eexists; eexists; eexists; (split; [reflexivity|]); split; try lra; field.
Qed.

(** X17.  In exact arithmetic: a ray that starts at or above the height of
    the floor, does not go down, and for which [rayIntersect] reports no
    sphere of the scene, gets the background colour, at every depth and with
    one unit of fuel. *)
Theorem rayCaster_sky (spheres : list (Sphere XR)) (lights : list (Light XR))
  ox oy oz dx dy dz (depth : N) (fuel : nat) :
  (forall s, In s spheres -> rayIntersect s (V3 ox oy oz) (V3 dx dy dz) = None) ->
  -5 <= oy -> 0 <= dy ->
  rayCaster_fuel (S fuel) (V3 ox oy oz) (V3 dx dy dz) spheres lights depth
  = Some BACKGROUNDCOLOR.
Proof.
  intros Hmiss Hoy Hdy. cbn [rayCaster_fuel].
  destruct (MAXDEPTH <? depth)%N; [reflexivity|].
  rewrite sceneIntersect_eq. unfold spheres_loop.
  rewrite (fold_spheres_miss _ _ _ _ Hmiss). cbn [fst snd].
  assert (Hw : plane_wins (V3 ox oy oz) (V3 dx dy dz) (FLT_MAX : XR) = false).
  { unfold plane_wins. destruct (plane_considered (V3 dx dy dz)) eqn:Hc; [|reflexivity].
    cbn [andb]. unfold plane_accepts.
    assert (H0 : fltb (flit 0 : XR) (plane_distance (V3 ox oy oz) (V3 dx dy dz)) = false).
    { unfold plane_distance, V3. cbn. destruct (Req_dec_T dy 0) as [|Hne]; [reflexivity|].
      cbn. rewrite Q2R_0.
      replace (Q2R 5) with 5 by (unfold Q2R; simpl; lra).
      destruct (Rlt_dec 0 (- (oy + 5) / dy)) as [Hpos|]; [|reflexivity].
      exfalso. assert (Hd : 0 < dy) by lra.
      assert (H : 0 < - (oy + 5) / dy * dy) by (apply Rmult_lt_0_compat; lra).
      replace (- (oy + 5) / dy * dy) with (- (oy + 5)) in H by (field; lra). lra. }
    rewrite H0. reflexivity. }
  rewrite Hw, FLT_MAX_not_below_1000. reflexivity.
Qed.

Lemma rayCaster_sky_witness :
  rayCaster_fuel 1 (V3 0 0 0) (V3 0 0 (-1))
    [mkSphere (V3 0 0 3) (Some 1) Material_default] main_lights 0
  = Some BACKGROUNDCOLOR.
Proof.
  apply rayCaster_sky; [|lra|lra].
  intros s [<- | []]. exact rayIntersect_at_back.
Defined.

(** *** [render] *)

Lemma Rmax3_scale (k r g b : R) :
  0 <= k -> Rmax (r * k) (Rmax (g * k) (b * k)) = Rmax r (Rmax g b) * k.
Proof.
  intros Hk. rewrite !(Rmult_comm _ k). rewrite <- !RmaxRmult by exact Hk. reflexivity.
Qed.

(** X18.  In exact arithmetic: the scaling step of the tone mapping leaves
    every channel at most 1, and applying it to its own result changes
    nothing. *)
Theorem tone_map_idempotent r g b :
  exists r2 g2 b2,
    tone_map (V3 r g b) = V3 r2 g2 b2 /\
    r2 <= 1 /\ g2 <= 1 /\ b2 <= 1 /\
    tone_map (V3 r2 g2 b2) = V3 r2 g2 b2.
Proof.
  assert (Hkeep : forall r g b, Rmax r (Rmax g b) <= 1 -> tone_map (V3 r g b) = V3 r g b).
  { intros r1 g1 b1 Hm. unfold tone_map. rewrite channel_max_real. cbn. rewrite Q2R_1.
    destruct (Rlt_dec 1 (Rmax r1 (Rmax g1 b1))); [lra | reflexivity]. }
  assert (Hle : forall r g b, Rmax r (Rmax g b) <= 1 -> r <= 1 /\ g <= 1 /\ b <= 1).
  { intros r1 g1 b1 Hm.
    pose proof (Rmax_l r1 (Rmax g1 b1)). pose proof (Rmax_r r1 (Rmax g1 b1)).
    pose proof (Rmax_l g1 b1). pose proof (Rmax_r g1 b1). lra. }
  destruct (Rlt_dec 1 (Rmax r (Rmax g b))) as [Hm|Hm].
  - set (m := Rmax r (Rmax g b)) in *.
    assert (Hscaled : tone_map (V3 r g b) = V3 (r * (1 / m)) (g * (1 / m)) (b * (1 / m))).
    { unfold tone_map. rewrite channel_max_real. fold m. cbn. rewrite Q2R_1.
      destruct (Rlt_dec 1 m); [|lra]. destruct (Req_dec_T m 0); [lra|]. reflexivity. }
    assert (Hk : 0 <= 1 / m) by (apply Rlt_le, Rdiv_lt_0_compat; lra).
    assert (Hmax : Rmax (r * (1 / m)) (Rmax (g * (1 / m)) (b * (1 / m))) <= 1).
    { rewrite Rmax3_scale by exact Hk. fold m. right. field. lra. }
    exists (r * (1 / m)), (g * (1 / m)), (b * (1 / m)).
    split; [exact Hscaled|]. destruct (Hle _ _ _ Hmax) as (H1 & H2 & H3).
    repeat split; try assumption. apply Hkeep. exact Hmax.
  - assert (Hm' : Rmax r (Rmax g b) <= 1) by lra.
    exists r, g, b. split; [apply Hkeep; exact Hm'|].
    destruct (Hle _ _ _ Hm') as (H1 & H2 & H3).
    repeat split; try assumption. apply Hkeep. exact Hm'.
Qed.

(** X19.  In exact arithmetic: the byte written for a channel does not
    decrease when the channel grows; it is 0 for every channel [<= 0] and 255
    for every channel [>= 1]; and a channel that is not a number is written
    as 255, because [std::min(1.f, v)] returns [1.f] when the comparison
    fails. *)
Theorem quantize_monotone :
  (forall u v, u <= v -> (quantize (Some u) <= quantize (Some v))%Z) /\
  (forall u, u <= 0 -> quantize (Some u) = 0%Z) /\
  (forall u, 1 <= u -> quantize (Some u) = 255%Z) /\
  quantize (None : XR) = 255%Z.
Proof.
  split; [|split; [|split]].
  - intros u v Huv.
    destruct (quantize_real u) as [-> _]. destruct (quantize_real v) as [-> _].
    apply Zfloor_le.
    assert (Rmax 0 (Rmin 1 u) <= Rmax 0 (Rmin 1 v)).
    { unfold Rmax, Rmin. repeat xr_case; lra. }
    lra.
  - intros u Hu. destruct (quantize_real u) as [-> _].
    replace (Rmax 0 (Rmin 1 u)) with 0 by (unfold Rmax, Rmin; repeat xr_case; lra).
    apply Zfloor_eq. simpl. lra.
  - intros u Hu. destruct (quantize_real u) as [-> _].
    replace (Rmax 0 (Rmin 1 u)) with 1 by (unfold Rmax, Rmin; repeat xr_case; lra).
    apply Zfloor_eq. simpl. lra.
  - unfold quantize. rewrite clamp01_nan. cbn.
    replace (Q2R (255 # 1)) with 255 by (unfold Q2R; simpl; lra).
    destruct (Rle_dec 0 (255 * 1)); [|lra].
    replace (Zfloor (255 * 1)) with 255%Z; [reflexivity|].
    symmetry. apply Zfloor_eq. simpl. lra.
Qed.

Lemma Q2R_int (n : Z) : Q2R (n # 1) = IZR n.
Proof. unfold Q2R. simpl. field. Qed.

Lemma of_index_real (n : nat) : of_index n = Some (INR n) :> XR.
Proof. unfold of_index. cbn. rewrite Q2R_int, <- INR_IZR_INZ. reflexivity. Qed.

Lemma sqrt3_pos : 0 < sqrt 3.
Proof. apply sqrt_lt_R0. lra. Qed.

Lemma ftan_half_fov : ftan (fdiv (fov : XR) (flit (2 # 1))) = Some (1 / sqrt 3).
Proof.
  unfold fov. cbn.
  destruct (Req_dec_T (Q2R (3 # 1)) 0) as [E|_];
    [unfold Q2R in E; simpl in E; lra|].
  cbn. destruct (Req_dec_T (Q2R (2 # 1)) 0) as [E|_];
    [unfold Q2R in E; simpl in E; lra|].
  replace (PI / Q2R (3 # 1) / Q2R (2 # 1)) with (PI / 6)
    by (unfold Q2R; simpl; field).
  pose proof sqrt3_pos as H3.
  destruct (Req_dec_T (cos (PI / 6)) 0) as [E|_]; [rewrite cos_PI6 in E; lra|].
  rewrite tan_PI6. reflexivity.
Qed.

(** The direction before [normalize], for pixel [(i, j)]. *)
Lemma primary_dir_real (i j : nat) :
  primary_dir i j
  = normalize (V3 (INR i + 1 / 2 - 512) (- (INR j + 1 / 2) + 384) (- (384 * sqrt 3))).
Proof.
  unfold primary_dir. rewrite ftan_half_fov, !of_index_real.
  pose proof sqrt3_pos as H3.
  f_equal. unfold V3. cbn.
  destruct (Req_dec_T (Q2R (2 # 1)) 0) as [E|_];
    [unfold Q2R in E; simpl in E; lra|].
  cbn.
  destruct (Req_dec_T (Q2R (2 # 1) * (1 / sqrt 3)) 0) as [E|_].
  { exfalso. assert (0 < Q2R (2 # 1) * (1 / sqrt 3)); [|lra].
    apply Rmult_lt_0_compat; [unfold Q2R; simpl; lra|].
    apply Rdiv_lt_0_compat; lra. }
  replace (INR width) with 1024 by (unfold width; rewrite INR_IZR_INZ; reflexivity).
  replace (INR height) with 768 by (unfold height; rewrite INR_IZR_INZ; reflexivity).
  f_equal; f_equal; unfold Q2R; simpl; field; lra.
Qed.

(** X20.  In exact arithmetic, with [M_PI] the number pi: the primary ray of
    every pixel [(i, j)] is a vector of numbers of unit length that points
    into the scene ([z < 0]), parallel to
    [(i + 1/2 - 512, 384 - (j + 1/2), - 384 * sqrt 3)]: the field of view of
    60 degrees is the vertical one. *)
Theorem primary_dir_unit (i j : nat) :
  exists a b c,
    primary_dir i j = V3 a b c /\
    a * a + b * b + c * c = 1 /\ c < 0 /\
    a * (- (384 * sqrt 3)) = c * (INR i + 1 / 2 - 512) /\
    b * (- (384 * sqrt 3)) = c * (384 - (INR j + 1 / 2)).
Proof.
  rewrite primary_dir_real, normalize_real.
  set (dx := INR i + 1 / 2 - 512). set (dy := - (INR j + 1 / 2) + 384).
  set (dz := - (384 * sqrt 3)).
  pose proof sqrt3_pos as H3.
  assert (Hdz : dz < 0) by (subst dz; lra).
  assert (Hsum : 0 < dx * dx + dy * dy + dz * dz) by nra.
  set (n := sqrt (dx * dx + dy * dy + dz * dz)).
  assert (Hn : 0 < n) by (apply sqrt_lt_R0; exact Hsum).
  assert (Hnn : n * n = dx * dx + dy * dy + dz * dz) by (apply sqrt_sqrt; lra).
  destruct (Req_dec_T n 0) as [E|_]; [lra|].
  assert (Hk : 0 < 1 / n) by (apply Rdiv_lt_0_compat; lra).
  exists (dx * (1 / n)), (dy * (1 / n)), (dz * (1 / n)).
  split; [reflexivity|]. split; [|split; [|split]].
  - transitivity ((dx * dx + dy * dy + dz * dz) / (n * n)); [field; lra|].
    rewrite Hnn. field. lra.
  - nra.
  - ring.
  - subst dy. ring.
Qed.

(** *** The shadow test *)

Lemma FLT_MAX_real : (FLT_MAX : XR) = Some 340282346638528859811704183484516925440.
Proof. unfold FLT_MAX. cbn. f_equal. unfold Q2R. simpl. field. Qed.

(** The distance from the origin of a ray of unit direction to its point at
    parameter [t >= 0]. *)
Lemma norm_along_ray sx sy sz a b c t :
  a * a + b * b + c * c = 1 -> 0 <= t ->
  norm (vsub (vadd (V3 sx sy sz) (vscale (V3 a b c) (Some t))) (V3 sx sy sz)) = Some t.
Proof.
  intros Hu Ht. unfold norm, vsub, vadd, vscale, V3. cbn.
  match goal with |- context [Rlt_dec ?u 0] => assert (Hsq : u = t * t) end.
  { transitivity (t * t * (a * a + b * b + c * c)); [ring | rewrite Hu; ring]. }
  rewrite Hsq. destruct (Rlt_dec (t * t) 0); [nra|].
  rewrite sqrt_square by exact Ht. reflexivity.
Qed.

(** What [sceneIntersect] leaves in [hit] and returns, from the best sphere
    distance [d0] the loop reaches: the point of the ray at the plane
    distance when the plane branch is taken, the point at [d0] when a sphere
    was recorded. *)
Lemma sceneIntersect_real (orig dir : Vec3f XR) (spheres : list (Sphere XR))
  (st : HitState XR) :
  exists d0,
    fst (spheres_loop orig dir spheres st) = Some d0 /\
    (forall s t, In s spheres -> rayIntersect s orig dir = Some (Some t) -> d0 <= t) /\
    ((d0 = 340282346638528859811704183484516925440 /\
      snd (spheres_loop orig dir spheres st) = st) \/
     (0 <= d0 /\ exists s, In s spheres /\ rayIntersect s orig dir = Some (Some d0) /\
        snd (spheres_loop orig dir spheres st) = sphere_hit orig dir s (Some d0))) /\
    (plane_wins orig dir (Some d0) = true ->
       exists pd, plane_distance orig dir = Some pd /\ 0 < pd /\ pd < d0 /\
         sceneIntersect orig dir spheres st
         = (if Rlt_dec pd 1000 then true else false,
            (vadd orig (vscale dir (Some pd)), mkVec3f (flit 0) (flit 1) (flit 0),
             snd (snd (sceneIntersect orig dir spheres st))))) /\
    (plane_wins orig dir (Some d0) = false ->
       sceneIntersect orig dir spheres st
       = (if Rlt_dec d0 1000 then true else false, snd (spheres_loop orig dir spheres st))).
Proof.
  destruct (fold_spheres_nearest orig dir spheres
              340282346638528859811704183484516925440 st) as (d0 & Hfst & Hle & Hall).
  rewrite <- FLT_MAX_real in Hfst.
  change (fst (spheres_loop orig dir spheres st) = Some d0) in Hfst.
  exists d0. split; [exact Hfst|]. split; [exact Hall|].
  assert (H1000 : Q2R (1000 # 1) = 1000) by (unfold Q2R; simpl; lra).
  split; [|split].
  - destruct (spheres_loop_outcome orig dir spheres st) as [Hsame | (s & Hin & Hs & Hsnd)].
    + left. rewrite Hsame in Hfst |- *. cbn [fst snd] in *.
      rewrite FLT_MAX_real in Hfst. injection Hfst as <-. split; reflexivity.
    + right. rewrite Hfst in Hs, Hsnd.
      destruct (xleb_true_real _ _ (rayIntersect_nonneg _ _ _ _ Hs)) as (v & [= <-] & Hv).
      rewrite Q2R_0 in Hv. split; [exact Hv|].
      exists s. split; [exact Hin|]. split; [exact Hs|]. exact Hsnd.
  - intros Hw. rewrite sceneIntersect_eq, Hfst, Hw.
    pose proof (plane_wins_lt _ _ _ Hw) as Hlt.
    destruct (xltb_true _ _ Hlt) as (pd & v & Hpd & [= <-] & Hpd0).
    unfold plane_wins in Hw. apply andb_prop in Hw as [_ Ha].
    destruct (plane_accepts_real _ _ _ Ha)
      as (ox & oy & oz & dx & dy & dz & t & -> & -> & Hd & Ht & _).
    rewrite Hpd in Hd. injection Hd as <-.
    exists pd. split; [exact Hpd|]. split; [exact Ht|]. split; [exact Hpd0|].
    unfold plane_point. rewrite Hpd in Hlt |- *. cbn [snd].
    unfold fmin. rewrite Hlt. cbn [fltb XR_Scalar xltb flit]. rewrite H1000.
    reflexivity.
  - intros Hw. rewrite sceneIntersect_eq, Hfst, Hw.
    unfold fmin. rewrite FLT_MAX_real. cbn [fltb XR_Scalar xltb flit]. rewrite H1000.
    destruct (Rlt_dec 340282346638528859811704183484516925440 d0); [lra|].
    reflexivity.
Qed.

(** The shadow test on a ray of unit direction: the light at distance [LD]
    is found occluded exactly when a sphere is reported nearer than both the
    light and the cutoff 1000, or the plane is met nearer than both. *)
Lemma in_shadow_test_real (spheres : list (Sphere XR)) sx sy sz a b c (LD : R) :
  a * a + b * b + c * c = 1 ->
  (let '(found, (shadow_pt, _, _)) :=
     sceneIntersect (V3 sx sy sz) (V3 a b c) spheres rayCaster_locals in
   found && fltb (norm (vsub shadow_pt (V3 sx sy sz))) (Some LD)) = true
  <-> ((exists s t, In s spheres /\
          rayIntersect s (V3 sx sy sz) (V3 a b c) = Some (Some t) /\ t < 1000 /\ t < LD)
       \/ plane_wins (V3 sx sy sz) (V3 a b c) (Some (Rmin LD 1000)) = true).
Proof.
  intros Hu.
  destruct (sceneIntersect_real (V3 sx sy sz) (V3 a b c) spheres rayCaster_locals)
    as (d0 & Hfst & Hall & Hloop & Hplane & Hnoplane).
  assert (Hmin : forall u, u < Rmin LD 1000 <-> u < LD /\ u < 1000).
  { intros u. unfold Rmin. destruct (Rle_dec LD 1000); split; lra. }
  destruct (plane_wins (V3 sx sy sz) (V3 a b c) (Some d0)) eqn:Hw.
  - destruct (Hplane eq_refl) as (pd & Hpd & Hpos & Hlt & ->).
    rewrite norm_along_ray by (assumption || lra).
    assert (Hiff : (if Rlt_dec pd 1000 then true else false)
                   && fltb (Some pd : XR) (Some LD) = true <-> pd < LD /\ pd < 1000).
    { cbn. destruct (Rlt_dec pd 1000), (Rlt_dec pd LD); cbn; split;
        (intros [? ?] || intros ?); try discriminate; try lra; try reflexivity; split; lra. }
    rewrite Hiff. split.
    + intros Hboth. right. apply (plane_wins_transfer _ _ _ _ Hw).
      rewrite Hpd. apply xltb_real. apply Hmin. exact Hboth.
    + intros [(s & t & Hin & Hs & Ht1 & Ht2) | Hm].
      * pose proof (Hall s t Hin Hs). lra.
      * apply plane_wins_lt in Hm. rewrite Hpd in Hm.
        apply xltb_true in Hm as (u & v & [= <-] & [= <-] & Hm). apply Hmin. exact Hm.
  - rewrite (Hnoplane eq_refl).
    destruct (spheres_loop (V3 sx sy sz) (V3 a b c) spheres rayCaster_locals)
      as [sd [[hit Nh] mh]] eqn:Hsl.
    cbn [fst snd] in *.
    destruct Hloop as [[Hmax _] | (Hd0 & s & Hin & Hs & Hhit)].
    + subst d0. destruct (Rlt_dec 340282346638528859811704183484516925440 1000); [lra|].
      cbn [andb]. split; [discriminate|].
      intros [(s & t & Hin & Hs & Ht1 & Ht2) | Hm].
      * pose proof (Hall s t Hin Hs). lra.
      * exfalso. pose proof (plane_wins_lt _ _ _ Hm) as Hlt.
        apply xltb_true in Hlt as (u & v & Hpd & [= <-] & Hlt).
        assert (Hw' : plane_wins (V3 sx sy sz) (V3 a b c)
                        (Some 340282346638528859811704183484516925440) = true).
        { apply (plane_wins_transfer _ _ _ _ Hm).
          rewrite Hpd. apply xltb_real. apply Hmin in Hlt. lra. }
        congruence.
    + injection Hhit as -> _ _. rewrite norm_along_ray by assumption.
      assert (Hiff : (if Rlt_dec d0 1000 then true else false)
                     && fltb (Some d0 : XR) (Some LD) = true <-> d0 < LD /\ d0 < 1000).
      { cbn. destruct (Rlt_dec d0 1000), (Rlt_dec d0 LD); cbn; split;
          (intros [? ?] || intros ?); try discriminate; try lra; try reflexivity; split; lra. }
      rewrite Hiff. split.
      * intros [H1 H2]. left. exists s, d0. repeat split; assumption.
      * intros [(s' & t & Hin' & Hs' & Ht1 & Ht2) | Hm].
        -- pose proof (Hall s' t Hin' Hs'). lra.
        -- pose proof (plane_wins_lt _ _ _ Hm) as Hlt.
           apply xltb_true in Hlt as (u & v & Hpd & [= <-] & Hlt).
           apply Hmin in Hlt.
           destruct (Rlt_dec u d0) as [Hud|Hud]; [|lra].
           exfalso.
           assert (Hw' : plane_wins (V3 sx sy sz) (V3 a b c) (Some d0) = true).
           { apply (plane_wins_transfer _ _ _ _ Hm). rewrite Hpd. apply xltb_real. exact Hud. }
           congruence.
Qed.

(** The direction and the distance of a light, [LD > 0] away from the point. *)
Lemma light_dir_real (l : Light XR) px py pz lx ly lz LD :
  position l = V3 lx ly lz -> 0 < LD ->
  LD * LD = (lx - px) * (lx - px) + (ly - py) * (ly - py) + (lz - pz) * (lz - pz) ->
  light_dir (V3 px py pz) l
  = V3 ((lx - px) * (1 / LD)) ((ly - py) * (1 / LD)) ((lz - pz) * (1 / LD))
  /\ light_distance (V3 px py pz) l = Some LD
  /\ (lx - px) * (1 / LD) * ((lx - px) * (1 / LD))
     + (ly - py) * (1 / LD) * ((ly - py) * (1 / LD))
     + (lz - pz) * (1 / LD) * ((lz - pz) * (1 / LD)) = 1.
Proof.
  intros Hpos HLD Hsq. unfold light_dir, light_distance. rewrite Hpos.
  change (vsub (V3 lx ly lz) (V3 px py pz)) with (V3 (lx - px) (ly - py) (lz - pz)).
  rewrite normalize_real. unfold norm, V3. cbn [x y z].
  cbn [fadd fmul sqrtf XR_Scalar xlift2 xsqrt].
  rewrite <- Hsq. rewrite sqrt_square by lra.
  destruct (Req_dec_T LD 0); [lra|].
  destruct (Rlt_dec (LD * LD) 0); [nra|].
  split; [reflexivity|]. split; [reflexivity|].
  transitivity (((lx - px) * (lx - px) + (ly - py) * (ly - py) + (lz - pz) * (lz - pz))
                / (LD * LD)); [field; lra|].
  rewrite <- Hsq. field. lra.
Qed.

(** The shadow ray of a light and what the test of line 122 finds on it. *)
Lemma shadow_probe_real (spheres : list (Sphere XR)) (l : Light XR)
  px py pz nx ny nz lx ly lz LD :
  position l = V3 lx ly lz -> 0 < LD ->
  LD * LD = (lx - px) * (lx - px) + (ly - py) * (ly - py) + (lz - pz) * (lz - pz) ->
  let point := V3 px py pz in
  let N := V3 nx ny nz in
  let ld := V3 ((lx - px) * (1 / LD)) ((ly - py) * (1 / LD)) ((lz - pz) * (1 / LD)) in
  let q := (lx - px) * (1 / LD) * nx + (ly - py) * (1 / LD) * ny
           + (lz - pz) * (1 / LD) * nz in
  let so := if Rlt_dec q 0
            then V3 (px - nx * (1 / 1000)) (py - ny * (1 / 1000)) (pz - nz * (1 / 1000))
            else V3 (px + nx * (1 / 1000)) (py + ny * (1 / 1000)) (pz + nz * (1 / 1000)) in
  light_dir point l = ld /\ light_distance point l = Some LD /\
  dot ld N = Some q /\ shadow_orig point N l = so /\
  (in_shadow spheres point N l = true <->
     ((exists s t, In s spheres /\ rayIntersect s so ld = Some (Some t)
                   /\ t < 1000 /\ t < LD)
      \/ plane_wins so ld (Some (Rmin LD 1000)) = true)).
Proof.
  intros Hpos HLD Hsq point N ld q so.
  destruct (light_dir_real l px py pz lx ly lz LD Hpos HLD Hsq) as (Hld & Hdist & Hunit).
  fold point in Hld, Hdist. fold ld in Hld.
  assert (Hdot : dot ld N = Some q) by reflexivity.
  assert (Hso : shadow_orig point N l = so).
  { unfold shadow_orig. rewrite Hld. unfold offset_orig, so.
    rewrite Hdot. cbn [fltb XR_Scalar xltb flit]. rewrite Q2R_0.
    assert (Hk : Q2R (1 # 1000) = 1 / 1000) by (unfold Q2R; simpl; lra).
    destruct (Rlt_dec q 0); unfold point, N, V3, vsub, vadd, vscale; cbn;
      rewrite Hk; reflexivity. }
  split; [exact Hld|]. split; [exact Hdist|]. split; [exact Hdot|]. split; [exact Hso|].
  unfold in_shadow. rewrite Hso, Hld, Hdist.
  unfold so. destruct (Rlt_dec q 0); apply in_shadow_test_real; exact Hunit.
Qed.




(** The plane is not met by a ray that goes up, or level, from above it. *)
Lemma plane_wins_from_above (sx sy sz a b c : R) (sd : XR) :
  -5 <= sy -> 0 <= b -> plane_wins (V3 sx sy sz) (V3 a b c) sd = false.
Proof.
  intros Hsy Hb. unfold plane_wins.
  destruct (plane_considered (V3 a b c)); [|reflexivity]. cbn [andb].
  unfold plane_accepts.
  assert (H0 : fltb (flit 0 : XR) (plane_distance (V3 sx sy sz) (V3 a b c)) = false).
  { unfold plane_distance, V3. cbn. destruct (Req_dec_T b 0) as [|Hne]; [reflexivity|].
    cbn. rewrite Q2R_0.
    replace (Q2R 5) with 5 by (unfold Q2R; simpl; lra).
    destruct (Rlt_dec 0 (- (sy + 5) / b)) as [Hpos|]; [|reflexivity].
    exfalso. assert (Hd : 0 < b) by lra.
    assert (H : 0 < - (sy + 5) / b * b) by (apply Rmult_lt_0_compat; lra).
    replace (- (sy + 5) / b * b) with (- (sy + 5)) in H by (field; lra). lra. }
  rewrite H0. reflexivity.
Qed.



(** *** The material of a plane hit *)

(** C10 (amended).  In exact arithmetic: when the plane branch of
    [sceneIntersect] is taken, the material that comes out is the one left by
    the loop over the spheres with only [diffuse_color] replaced.  If no
    sphere is reported at a distance below [FLT_MAX], the refractive index,
    albedo and specular exponent are those passed in, which for the call
    made by [rayCaster] are those of [Material()]: index 1 and albedo
    (1, 0, 0, 0).  If some sphere is reported below [FLT_MAX], they are those
    of the sphere the loop recorded: one that is reported at least as near as
    every other sphere, and farther than the plane.  [rayCaster] shades the
    plane hit with that material. *)
Theorem plane_hit_keeps_material (orig dir : Vec3f XR) (spheres : list (Sphere XR))
  (st : HitState XR) :
  plane_wins orig dir (fst (spheres_loop orig dir spheres st)) = true ->
  let mat := snd (snd (sceneIntersect orig dir spheres st)) in
  mat = set_diffuse_color (snd (snd (spheres_loop orig dir spheres st)))
                          (checker_color (plane_point orig dir))
  /\ ((forall s t, In s spheres -> rayIntersect s orig dir = Some (Some t) ->
                   340282346638528859811704183484516925440 <= t) ->
        refractive_index mat = refractive_index (snd st) /\
        albedo mat = albedo (snd st) /\
        specular_exponent mat = specular_exponent (snd st) /\
        (st = rayCaster_locals ->
         refractive_index mat = flit 1 /\
         albedo mat = mkVec4f (flit 1) (flit 0) (flit 0) (flit 0)))
  /\ ((exists s t, In s spheres /\ rayIntersect s orig dir = Some (Some t)
                   /\ t < 340282346638528859811704183484516925440) ->
        exists s d pd, In s spheres /\ rayIntersect s orig dir = Some (Some d) /\
                    (forall s' t', In s' spheres ->
                       rayIntersect s' orig dir = Some (Some t') -> d <= t') /\
                    plane_distance orig dir = Some pd /\ pd < d /\
                    refractive_index mat = refractive_index (material s) /\
                    albedo mat = albedo (material s) /\
                    specular_exponent mat = specular_exponent (material s))
  /\ (forall fuel lights (depth : N),
        st = rayCaster_locals -> (depth <= 10)%N ->
        fst (sceneIntersect orig dir spheres st) = true ->
        rayCaster_fuel (S fuel) orig dir spheres lights depth =
        let point := plane_point orig dir in
        let up := mkVec3f (flit 0) (flit 1) (flit 0) in
        ' refracted <- refract_fuel fuel dir up (refractive_index mat) (flit 1) ;;
        ' reflectColor <-
          rayCaster_fuel fuel (offset_orig (normalize (reflect dir up)) point up)
            (normalize (reflect dir up)) spheres lights (size_t_succ depth) ;;
        ' refractColor <-
          rayCaster_fuel fuel (offset_orig (normalize refracted) point up)
            (normalize refracted) spheres lights (size_t_succ depth) ;;
        Some (shade mat (lights_loop spheres lights dir point up mat)
                    reflectColor refractColor)).
Proof.
  intros Hwins mat.
  destruct (plane_hit_material orig dir spheres st Hwins) as (Hmat & Hcast).
  fold mat in Hmat, Hcast.
  split; [exact Hmat|]. split; [|split; [|exact Hcast]].
  - intros Hfar.
    assert (Hloop : spheres_loop orig dir spheres st = (FLT_MAX, st)).
    { apply fold_spheres_keep. intros s d Hin Hd. destruct d as [t|]; [|reflexivity].
      pose proof (Hfar s t Hin Hd) as Ht. rewrite FLT_MAX_real. cbn.
      destruct (Rlt_dec t _); [lra | reflexivity]. }
    rewrite Hmat, Hloop. cbn [snd set_diffuse_color refractive_index albedo
                                specular_exponent].
    repeat split. all: subst st; reflexivity.
  - intros (s0 & t0 & Hin0 & Hs0 & Ht0).
    destruct (sceneIntersect_real orig dir spheres st)
      as (d0 & Hfst & Hall & Hloop & Hplane & _).
    rewrite Hfst in Hwins.
    destruct (Hplane Hwins) as (pd & Hpd & _ & Hlt & _).
    destruct Hloop as [[Hmax _] | (_ & s & Hin & Hs & Hsnd)].
    + pose proof (Hall s0 t0 Hin0 Hs0). lra.
    + exists s, d0, pd. rewrite Hmat, Hsnd. unfold sphere_hit. cbn.
      repeat split; assumption.
Qed.

(** A ray that goes straight down to the floor from five units above it. *)
Lemma plane_wins_down_example (sd : R) :
  5 < sd -> plane_wins (V3 0 0 (-12)) (V3 0 (-1) 0) (Some sd) = true.
Proof.
  intros Hsd.
  unfold plane_wins, plane_considered, plane_accepts, plane_point, plane_distance.
  xr_eval; reflexivity.
Qed.

Lemma plane_point_down_example :
  plane_point (V3 0 0 (-12)) (V3 0 (-1) 0) = V3 0 (-5) (-12).
Proof.
  unfold plane_point, plane_distance. xr_eval. f_equal; f_equal; field.
Qed.

(** *** A plane hit, evaluated *)

Lemma plane_wins_from_below (sx sy sz a b c : R) (sd : XR) :
  sy <= -5 -> b <= 0 -> plane_wins (V3 sx sy sz) (V3 a b c) sd = false.
Proof.
  intros Hsy Hb. unfold plane_wins.
  destruct (plane_considered (V3 a b c)); [|reflexivity]. cbn [andb].
  unfold plane_accepts.
  assert (H0 : fltb (flit 0 : XR) (plane_distance (V3 sx sy sz) (V3 a b c)) = false).
  { unfold plane_distance, V3. cbn. destruct (Req_dec_T b 0) as [|Hne]; [reflexivity|].
    cbn. rewrite Q2R_0.
    replace (Q2R 5) with 5 by (unfold Q2R; simpl; lra).
    destruct (Rlt_dec 0 (- (sy + 5) / b)) as [Hpos|]; [|reflexivity].
    exfalso. assert (Hd : 0 < - b) by lra.
    assert (H : 0 < - (sy + 5) / b * - b) by (apply Rmult_lt_0_compat; lra).
    replace (- (sy + 5) / b * - b) with (sy + 5) in H by (field; lra). lra. }
  rewrite H0. reflexivity.
Qed.

(** With no sphere in the scene and the plane out of reach the ray escapes. *)
Lemma sceneIntersect_empty_miss (orig dir : Vec3f XR) (st : HitState XR) :
  plane_wins orig dir (FLT_MAX : XR) = false ->
  fst (sceneIntersect orig dir [] st) = false.
Proof.
  intros Hw. rewrite sceneIntersect_eq. cbn [spheres_loop fold_left fst snd].
  rewrite Hw. cbn [fst]. apply FLT_MAX_not_below_1000.
Qed.

Lemma normalize_unit a b c :
  a * a + b * b + c * c = 1 -> normalize (V3 a b c) = V3 a b c.
Proof.
  intros Hu. rewrite normalize_real, Hu, sqrt_1.
  destruct (Req_dec_T 1 0); [lra|]. unfold V3. f_equal; f_equal; field.
Qed.

Lemma up_real : mkVec3f (flit 0) (flit 1) (flit 0) = V3 0 1 0.
Proof. unfold V3. cbn. rewrite Q2R_0, Q2R_1. reflexivity. Qed.

Lemma refract_down_example :
  refract_fuel 2 (V3 0 (-1) 0) (V3 0 1 0) (Some 1) (Some 1) = Some (V3 0 (-1) 0).
Proof.
  rewrite refract_fuel_real.
  destruct (Rlt_dec 0 (0 * 0 + -1 * 1 + 0 * 0)); [lra|].
  f_equal. apply refract_value_same_index; [lra|].
  unfold clampR. repeat xr_case; lra.
Qed.

Lemma checker_color_down_example :
  checker_color (V3 0 (-5) (-12))
  = mkVec3f (flit (1 # 10)) (flit (1 # 10)) (flit (1 # 10)).
Proof.
  rewrite checker_color_real by lra.
  replace (0 / 2 + 1000) with (IZR 1000) by lra.
  unfold Zceil. replace (- (-12 / 2)) with (IZR 6) by lra.
  rewrite !ZfloorZ. reflexivity.
Qed.

(** The light one unit above the hit point of that ray is not occluded. *)
Lemma lights_loop_down_example (dir : Vec3f XR) (mat : Material XR) :
  specular_exponent mat = flit 0 ->
  lights_loop [] [mkLight (V3 0 (-4) (-12)) (Some 2)] dir (V3 0 (-5) (-12)) (V3 0 1 0) mat
  = (Some (0 + 2 * 1), Some (0 + 1 * 2)).
Proof.
  intros Hexp.
  assert (HLD : 0 < 1) by lra.
  assert (Hsq : 1 * 1 = (0 - 0) * (0 - 0) + (-4 - -5) * (-4 - -5)
                        + (-12 - -12) * (-12 - -12)) by lra.
  destruct (shadow_probe_real [] (mkLight (V3 0 (-4) (-12)) (Some 2))
              0 (-5) (-12) 0 1 0 0 (-4) (-12) 1 eq_refl HLD Hsq)
    as (Hld & _ & Hdot & _ & Hshadow).
  cbv zeta in *.
  assert (Hlit : in_shadow [] (V3 0 (-5) (-12)) (V3 0 1 0)
                   (mkLight (V3 0 (-4) (-12)) (Some 2)) = false).
  { destruct (in_shadow _ _ _ _) eqn:Hs; [|reflexivity]. exfalso.
    destruct (proj1 Hshadow eq_refl) as [(s & t & [] & _) | Hw].
    revert Hw. destruct (Rlt_dec _ 0) as [Hq|_]; [lra|].
    rewrite plane_wins_from_above by lra. discriminate. }
  unfold lights_loop. cbn [fold_left]. unfold light_step. rewrite Hlit.
  unfold diffuse_term, specular_term. rewrite Hld, Hdot, Hexp.
  cbn [fst snd intensity].
  change (flit 0 : XR) with (Some (Q2R 0)). rewrite Q2R_0, fmax_real.
  assert (Hpow : forall a : XR, powf a (Some 0) = Some 1).
  { intros a. cbn [powf XR_Scalar]. unfold xpow.
    destruct a; destruct (Req_dec_T 0 0); try lra; reflexivity. }
  rewrite Hpow. cbn. f_equal; f_equal.
  unfold Rmax. destruct (Rle_dec 0 _); lra.
Qed.

(** Two rays: one that goes down to the floor in a scene without spheres and
    with one light above the hit point, and one with a glass sphere behind
    the plane hit. *)
Lemma plane_hit_keeps_material_witness :
  rayCaster_fuel 3 (V3 0 0 (-12)) (V3 0 (-1) 0) []
    [mkLight (V3 0 (-4) (-12)) (Some 2)] 0
  = Some (V3 (1 / 5) (1 / 5) (1 / 5))
  /\ albedo (snd (snd (sceneIntersect (V3 0 0 0) (V3 0 (-5 / 13) (-12 / 13))
                         [mkSphere (V3 0 (-10) (-24)) (Some 1) glass] rayCaster_locals)))
     = albedo glass.
Proof.
  split.
  - assert (Hw : plane_wins (V3 0 0 (-12)) (V3 0 (-1) 0)
                   (fst (spheres_loop (V3 0 0 (-12)) (V3 0 (-1) 0) [] rayCaster_locals))
                 = true).
    { cbn [spheres_loop fold_left fst]. rewrite FLT_MAX_real.
      apply plane_wins_down_example. lra. }
    destruct (plane_hit_keeps_material (V3 0 0 (-12)) (V3 0 (-1) 0) [] rayCaster_locals Hw)
      as (Hmat & Hnone & _ & Hcast).
    destruct Hnone as (_ & _ & Hexp & Hdef); [intros s t []|].
    destruct (Hdef eq_refl) as (Hidx & Halb).
    assert (Hfound : fst (sceneIntersect (V3 0 0 (-12)) (V3 0 (-1) 0) []
                            rayCaster_locals) = true).
    { rewrite sceneIntersect_eq, Hw. cbn [fst spheres_loop fold_left].
      unfold fmin, FLT_MAX, plane_distance. xr_eval; reflexivity. }
    rewrite (Hcast 2%nat _ 0%N eq_refl ltac:(lia) Hfound). cbv zeta.
    rewrite Hidx, up_real, plane_point_down_example.
    change (flit 1 : XR) with (Some (Q2R 1)). rewrite Q2R_1.
    rewrite refract_down_example. cbn beta iota.
    rewrite (normalize_unit 0 (-1) 0) by lra.
    assert (Hrefl : reflect (V3 0 (-1) 0) (V3 0 1 0) = V3 0 1 0)
      by (rewrite reflect_real; unfold V3; f_equal; f_equal; lra).
    rewrite Hrefl, (normalize_unit 0 1 0) by lra.
    assert (Hup : offset_orig (V3 0 1 0) (V3 0 (-5) (-12)) (V3 0 1 0)
                  = V3 0 (-5 + 1 / 1000) (-12)).
    { unfold offset_orig. xr_eval. f_equal; f_equal; lra. }
    assert (Hdown : offset_orig (V3 0 (-1) 0) (V3 0 (-5) (-12)) (V3 0 1 0)
                    = V3 0 (-5 - 1 / 1000) (-12)).
    { unfold offset_orig. xr_eval. f_equal; f_equal; lra. }
    rewrite Hup, Hdown.
    rewrite !rayCaster_fuel_miss
      by (apply sceneIntersect_empty_miss;
          first [apply plane_wins_from_above; lra | apply plane_wins_from_below; lra]).
    cbn beta iota. f_equal.
    rewrite lights_loop_down_example by (rewrite Hexp; reflexivity).
    rewrite Hmat. cbn [spheres_loop fold_left snd].
    rewrite plane_point_down_example, checker_color_down_example.
    unfold shade, BACKGROUNDCOLOR, rayCaster_locals, set_diffuse_color, Material_default,
      vadd, vscale, V3. cbn.
    f_equal; f_equal; unfold Q2R; simpl; field.
  - assert (Hw : plane_wins (V3 0 0 0) (V3 0 (-5 / 13) (-12 / 13))
                   (fst (spheres_loop (V3 0 0 0) (V3 0 (-5 / 13) (-12 / 13))
                           [mkSphere (V3 0 (-10) (-24)) (Some 1) glass] rayCaster_locals))
                 = true).
    { rewrite spheres_loop_behind_plane. apply plane_wins_unit_example. lra. }
    destruct (plane_hit_keeps_material (V3 0 0 0) (V3 0 (-5 / 13) (-12 / 13))
                [mkSphere (V3 0 (-10) (-24)) (Some 1) glass] rayCaster_locals Hw)
      as (_ & _ & Hsome & _).
    destruct Hsome as (s & d & pd & [<- | []] & _ & _ & _ & _ & _ & Halb & _).
    + exists (mkSphere (V3 0 (-10) (-24)) (Some 1) glass), 25.
      split; [left; reflexivity|]. split; [exact sphere_behind_plane | lra].
    + exact Halb.
Defined.

(** C10 as stated fails in two ways.  With two spheres behind the plane hit,
    glass at distance 25 and a mirror at distance 38, the plane hit takes the
    albedo of the glass: the mirror too is met farther than the plane, and its
    albedo is not inherited.  And in binary32 a sphere of radius [2^65] that
    contains the origin of the ray is reported at an infinite distance, which
    is not below [FLT_MAX]: the plane hit keeps the albedo of [Material()],
    not that of the sphere. *)
Lemma plane_hit_inherits_nearest_only :
  (rayIntersect (mkSphere (V3 0 (-15) (-36)) (Some 1) mirror)
     (V3 0 0 0) (V3 0 (-5 / 13) (-12 / 13)) = Some (Some 38)
   /\ plane_distance (V3 0 0 0) (V3 0 (-5 / 13) (-12 / 13)) = Some 13
   /\ fst (sceneIntersect (V3 0 0 0) (V3 0 (-5 / 13) (-12 / 13))
             [mkSphere (V3 0 (-10) (-24)) (Some 1) glass;
              mkSphere (V3 0 (-15) (-36)) (Some 1) mirror] rayCaster_locals) = true
   /\ snd (fst (snd (sceneIntersect (V3 0 0 0) (V3 0 (-5 / 13) (-12 / 13))
             [mkSphere (V3 0 (-10) (-24)) (Some 1) glass;
              mkSphere (V3 0 (-15) (-36)) (Some 1) mirror] rayCaster_locals)))
      = mkVec3f (flit 0) (flit 1) (flit 0)
   /\ albedo (snd (snd (sceneIntersect (V3 0 0 0) (V3 0 (-5 / 13) (-12 / 13))
             [mkSphere (V3 0 (-10) (-24)) (Some 1) glass;
              mkSphere (V3 0 (-15) (-36)) (Some 1) mirror] rayCaster_locals)))
      <> albedo (mirror (SF := XR_Scalar)))
  /\ (forall pw,
     rayIntersect (SF := B32_Scalar pw)
       (mkSphere (V32 0 0 0) (b32_of_Q (36893488147419103232 # 1))
          (glass (SF := B32_Scalar pw)))
       (V32 0 0 0) (V32 0 (-1) (-4)) = Some inf32
     /\ sceneIntersect (SF := B32_Scalar pw) (V32 0 0 0) (V32 0 (-1) (-4))
          [mkSphere (V32 0 0 0) (b32_of_Q (36893488147419103232 # 1))
             (glass (SF := B32_Scalar pw))]
          (rayCaster_locals (SF := B32_Scalar pw))
        = (true, (V32 0 (-5) (-20), V32 0 1 0,
                  set_diffuse_color (Material_default (SF := B32_Scalar pw))
                    (V32 (1 # 10) (1 # 10) (1 # 10))))
     /\ albedo (Material_default (SF := B32_Scalar pw))
        <> albedo (glass (SF := B32_Scalar pw))).
Proof.
  split.
  - assert (Hmirror : rayIntersect (mkSphere (V3 0 (-15) (-36)) (Some 1) mirror)
                        (V3 0 0 0) (V3 0 (-5 / 13) (-12 / 13)) = Some (Some 38)).
    { replace (V3 0 (-15) (-36))
        with (V3 (0 + 0 * 39) (0 + -5 / 13 * 39) (0 + -12 / 13 * 39))
        by (unfold V3; f_equal; f_equal; lra).
      rewrite rayIntersect_on_axis by lra. do 2 f_equal. lra. }
    assert (Hloop : spheres_loop (V3 0 0 0) (V3 0 (-5 / 13) (-12 / 13))
                      [mkSphere (V3 0 (-10) (-24)) (Some 1) glass;
                       mkSphere (V3 0 (-15) (-36)) (Some 1) mirror] rayCaster_locals
                    = (Some 25, sphere_hit (V3 0 0 0) (V3 0 (-5 / 13) (-12 / 13))
                                  (mkSphere (V3 0 (-10) (-24)) (Some 1) glass) (Some 25))).
    { assert (Hlt : fltb (Some 25 : XR) FLT_MAX = true)
        by (rewrite FLT_MAX_real; apply xltb_real; lra).
      assert (Hge : fltb (Some 38 : XR) (Some 25) = false)
        by (cbn; destruct (Rlt_dec 38 25); [lra | reflexivity]).
      unfold spheres_loop. cbn [fold_left].
      assert (H1 : spheres_step (V3 0 0 0) (V3 0 (-5 / 13) (-12 / 13))
                     (FLT_MAX, rayCaster_locals)
                     (mkSphere (V3 0 (-10) (-24)) (Some 1) glass)
                   = (Some 25, sphere_hit (V3 0 0 0) (V3 0 (-5 / 13) (-12 / 13))
                                 (mkSphere (V3 0 (-10) (-24)) (Some 1) glass) (Some 25))).
      { unfold spheres_step. rewrite sphere_behind_plane, Hlt. reflexivity. }
      rewrite H1. unfold spheres_step. rewrite Hmirror, Hge. reflexivity. }
    assert (Hpd : plane_distance (V3 0 0 0) (V3 0 (-5 / 13) (-12 / 13)) = Some 13).
    { unfold plane_distance. xr_eval. f_equal. field. }
    split; [exact Hmirror|]. split; [exact Hpd|].
    rewrite sceneIntersect_eq, Hloop. cbn [fst snd].
    rewrite plane_wins_unit_example by lra. cbn [fst snd].
    split; [|split; [reflexivity|]].
    + rewrite Hpd. unfold fmin. cbn.
      destruct (Rlt_dec 13 25); [|lra]. cbn.
      destruct (Rlt_dec 13 (Q2R 1000)) as [|Hn]; [reflexivity|].
      exfalso. apply Hn. unfold Q2R. simpl. lra.
    + unfold sphere_hit, set_diffuse_color, glass, mirror. cbn.
      intros [= _ H _]. unfold Q2R in H. simpl in H. lra.
  - intros pw. split; [vm_compute; reflexivity|]. split; [vm_compute; reflexivity|].
    vm_compute. discriminate.
Qed.

(** *** The file written, in the scene of [main] *)

Lemma render_output_shape_witness :
  exists framebuffer,
    render_fuel 13 main_spheres main_lights
    = Some ([80; 54; 10; 49; 48; 50; 52; 32; 55; 54; 56; 10; 50; 53; 53; 10]%Z
            ++ framebuffer_bytes framebuffer)
    /\ Z.of_nat (length framebuffer) = 786432%Z.
Proof.
  assert (Hrad : forall s, In s (main_spheres (F := XR)) -> radius s <> Some 0).
  { intros s [<-|[<-|[<-|[<-|[]]]]]; cbn; intros [= H];
      unfold Q2R in H; simpl in H; lra. }
  destruct (render_output_shape (F := XR) 13 main_spheres main_lights)
    as (fb & Hout & Hlen & _).
  { intros i j _ _.
    destruct (rayCaster_total_levels main_spheres main_lights Hrad 11 0%N
                (mkVec3f (flit 0) (flit 0) (flit 0)) (primary_dir i j)) as (c & Hc).
    - lia.
    - unfold primary_dir. apply normalize_ok.
    - rewrite (Hc 13%nat) by lia. discriminate. }
  exists fb. split; [exact Hout | exact Hlen].
Defined.

End FurtherExactArithmetic.

(** * Properties in binary32

    Each holds for every [powf]. *)

(** The normal of a hit point that coincides with the centre of the sphere:
    [0 * (1 / 0)] in each component. *)
Lemma normalize_zero_b32 (pw : float32 -> float32 -> float32) :
  normalize (SF := B32_Scalar pw) (V32 0 0 0) = mkVec3f nan32 nan32 nan32.
Proof. vm_compute. reflexivity. Qed.

(** With a normal that is not a number [I * N] is not a number,
    [std::min(1.f, NaN)] is 1 and [cosi] is -1, whatever [I] is; negating the
    normal changes nothing. *)
Lemma refract_nan_normal_b32 (pw : float32 -> float32 -> float32)
  (I : Vec3f float32) (fuel : nat) (eta_t eta_i : float32) :
  refract_fuel (SF := B32_Scalar pw) fuel I (mkVec3f nan32 nan32 nan32) eta_t eta_i
  = None.
Proof.
  revert fuel eta_t eta_i. apply refract_fuel_stuck; [reflexivity|].
  destruct I as [a b c]. unfold refract_cosi, dot, fmin, fmax. cbn [x y z].
  assert (Hdot : fadd (Scalar := B32_Scalar pw)
                   (fadd (Scalar := B32_Scalar pw)
                      (fmul (Scalar := B32_Scalar pw) a nan32)
                      (fmul (Scalar := B32_Scalar pw) b nan32))
                   (fmul (Scalar := B32_Scalar pw) c nan32) = nan32).
  { cbn. destruct a, b, c; reflexivity. }
  rewrite Hdot. vm_compute. reflexivity.
Qed.

(** A sphere of radius [2^-40] two units down the ray: [t0 = 2 - 2^-40]
    rounds to 2, the hit point is the centre, the normal is not a number. *)
Lemma sceneIntersect_tiny_sphere_b32 (pw : float32 -> float32 -> float32) :
  sceneIntersect (SF := B32_Scalar pw) (V32 0 0 0) (V32 0 0 (-1))
    [mkSphere (V32 0 0 (-2)) (b32_of_Q (1 # 1099511627776))
       (Material_default (SF := B32_Scalar pw))]
    (rayCaster_locals (SF := B32_Scalar pw))
  = (true, (V32 0 0 (-2), mkVec3f nan32 nan32 nan32,
            Material_default (SF := B32_Scalar pw))).
Proof. vm_compute. reflexivity. Qed.

(** C8.  In binary32, for every [powf]: [refract], called with the normal
    [Vec3f(0, 0, 0).normalize()], whose components are NaN, returns for no
    incident vector, no pair of indices and no amount of fuel.  [I * N] is
    NaN, [std::min(1.f, NaN)] is 1 and [cosi] is -1, in the call and in every
    self-call: more than one self-call is made, and [k] is never computed. *)
Theorem refract_nan_normal_loops :
  forall (pw : float32 -> float32 -> float32) (fuel : nat) (I : Vec3f float32)
         (eta_t eta_i : float32),
    refract_fuel (SF := B32_Scalar pw) fuel I
      (normalize (SF := B32_Scalar pw) (V32 0 0 0)) eta_t eta_i
    = None.
Proof.
  intros pw fuel I eta_t eta_i.
  rewrite normalize_zero_b32. apply refract_nan_normal_b32.
Qed.

(** C5.  In binary32, for every [powf] and every list of lights:
    [rayCaster] from the origin along (0, 0, -1), a direction of unit
    length, in the scene of one sphere of radius [2^-40] centred at
    (0, 0, -2), at depth 0, returns for no amount of fuel.  The hit point is
    the centre of the sphere, the normal is NaN and [refract] does not
    return. *)
Theorem rayCaster_tiny_sphere_diverges :
  forall (pw : float32 -> float32 -> float32) (fuel : nat)
         (lights : list (Light float32)),
    rayCaster_fuel (SF := B32_Scalar pw) fuel (V32 0 0 0) (V32 0 0 (-1))
      [mkSphere (V32 0 0 (-2)) (b32_of_Q (1 # 1099511627776))
         (Material_default (SF := B32_Scalar pw))]
      lights 0
    = None.
Proof.
  intros pw fuel lights.
  destruct fuel as [|fuel]; [reflexivity|].
  rewrite (rayCaster_fuel_hit (SF := B32_Scalar pw) fuel _ _ _ lights 0%N _ _ _
             ltac:(lia) (sceneIntersect_tiny_sphere_b32 pw)).
  rewrite refract_nan_normal_b32. reflexivity.
Qed.

(** With [eta_t = 0] the quotient [eta_i / eta_t] is infinite, [k] is minus
    infinity and the value returned is (1, 0, 0). *)
Lemma refract_zero_index_b32 :
  forall pw,
    refract_fuel (SF := B32_Scalar pw) 1 (V32 (3 # 5) (-4 # 5) 0) (V32 0 1 0)
      (b32_of_Q 0) (b32_of_Q 1)
    = Some (V32 1 0 0).
Proof. intros pw. vm_compute. reflexivity. Qed.


(** With equal indices binary32 gives the incident direction back only up to
    the rounding of [cosi - sqrtf(k)], which the normal scales.  For a ray
    that grazes the surface, [I = (1, -2^-13, 0)] and [N = (0, 1, 0)]:
    [1 - cosi * cosi] rounds to 1, [k] is 0 and the value returned is
    (1, 0, 0).  For a normal of length [2^20] and [I * N] near -0.3: the
    second component of the value returned is near -0.03 where that of [I]
    is near -0.0000003. *)
Lemma refract_equal_indices_b32 :
  forall pw,
    (refract_fuel (SF := B32_Scalar pw) 2 (V32 1 (-1 # 8192) 0) (V32 0 1 0)
       (b32_of_Q (3 # 2)) (b32_of_Q (3 # 2))
     = Some (V32 1 0 0)
     /\ V32 1 0 0 <> V32 1 (-1 # 8192) 0)
    /\ (refract_fuel (SF := B32_Scalar pw) 2
          (V32 1 (-5033165 # 17592186044416) 0) (V32 0 (1048576 # 1) 0)
          (b32_of_Q (3 # 2)) (b32_of_Q (3 # 2))
        = Some (V32 1 (-8388685 # 268435456) 0)
        /\ V32 1 (-8388685 # 268435456) 0 <> V32 1 (-5033165 # 17592186044416) 0).
Proof.
  intros pw. repeat split; try (vm_compute; reflexivity); vm_compute; discriminate.
Qed.

(** The examples of the shadow test, evaluated in binary32: below a unit
    sphere the light four units above the point adds nothing, the light at
    (3, 4, 0) adds [2 * (4 / 5)] to the diffuse intensity, and the light at
    height 4096 adds its intensity 1 although the shadow ray meets a sphere
    at height 2048. *)
Lemma shadow_examples_b32 :
  forall pw,
    light_step (SF := B32_Scalar pw)
      [mkSphere (V32 0 2 0) (b32_of_Q 1) (glass (SF := B32_Scalar pw))]
      (V32 0 (-1) 0) (V32 0 0 0) (V32 0 1 0) (glass (SF := B32_Scalar pw))
      (b32_of_Q 0, b32_of_Q 0) (mkLight (V32 0 4 0) (b32_of_Q 2))
    = (b32_of_Q 0, b32_of_Q 0)
    /\ fst (light_step (SF := B32_Scalar pw)
              [mkSphere (V32 0 2 0) (b32_of_Q 1) (glass (SF := B32_Scalar pw))]
              (V32 0 (-1) 0) (V32 0 0 0) (V32 0 1 0) (glass (SF := B32_Scalar pw))
              (b32_of_Q 0, b32_of_Q 0) (mkLight (V32 3 4 0) (b32_of_Q 2)))
       = b32_of_Q (8 # 5)
    /\ fst (light_step (SF := B32_Scalar pw)
              [mkSphere (V32 0 2048 0) (b32_of_Q 1) (glass (SF := B32_Scalar pw))]
              (V32 0 (-1) 0) (V32 0 0 0) (V32 0 1 0) (glass (SF := B32_Scalar pw))
              (b32_of_Q 0, b32_of_Q 0) (mkLight (V32 0 4096 0) (b32_of_Q 1)))
       = b32_of_Q 1.
Proof. intros pw. repeat split; vm_compute; reflexivity. Qed.

(** The plane hit with glass and a mirror behind it, evaluated in binary32:
    the albedo that comes out is that of the glass, the nearer of the two. *)
Lemma plane_hit_example_b32 :
  forall pw,
    albedo (snd (snd (sceneIntersect (SF := B32_Scalar pw)
                        (V32 0 0 0) (V32 0 (-5 # 13) (-12 # 13))
                        [mkSphere (V32 0 (-10) (-24)) (b32_of_Q 1)
                           (glass (SF := B32_Scalar pw));
                         mkSphere (V32 0 (-15) (-36)) (b32_of_Q 1)
                           (mirror (SF := B32_Scalar pw))]
                        (rayCaster_locals (SF := B32_Scalar pw)))))
    = albedo (glass (SF := B32_Scalar pw))
    /\ albedo (glass (SF := B32_Scalar pw)) <> albedo (mirror (SF := B32_Scalar pw)).
Proof. intros pw. split; [vm_compute; reflexivity | vm_compute; discriminate]. Qed.
